(** * SIN-Solver: interaction ledger, content classifier and hybrid scoring

    A shallow embedding of the TypeScript sources of SIN-Solver
    (state-machine.ts, deception-hunter.ts, ml/ensemble.ts,
    ml/preprocessor.ts, ml/ml-deception-hunter.ts) and the properties
    the specification states about them.

    Conventions of the embedding:
    - a JavaScript [number] is an exact rational ([Q]); the rounding of
      binary64 arithmetic is abstracted, so an equation proved here holds
      in the source up to floating tolerance.  Counts and capacities are
      integers ([Z]);
    - a JavaScript string is a [string] of 8-bit code units;
    - an exception is the [Throw] outcome of [result];
    - objects that the source shares by reference live in an explicit
      store ([StateMachine.Heap]); the values of a snapshot, which
      [verifyClick] only reads, carry the identity of each object;
    - an object literal used as a map ([transitions], [actionMap]) is
      read as JavaScript reads it: an own property first, then
      Object.prototype;
    - engine built-ins that the sources call but do not define (RegExp,
      the TensorFlow predictors and [tf.tensor2d], text extraction, the
      text of a number that is not a small integer) are fields of a type
      class, so every theorem holds for any implementation of them. *)

From Stdlib Require Import QArith Qcanon Qminmax Lqa.
From Stdlib Require Import Ascii String DecimalString.
From stdpp Require Import base option list strings gmap.

Local Open Scope Z_scope.

(* ===================================================================== *)
(** * Part I: the model                                                   *)
(* ===================================================================== *)

(** ** Exceptions *)

Inductive Error : Type :=
| InvalidStateName (name : string)
    (* new Error(`Invalid state name: ${name}`) *)
| IllegalTransition (from to : string)
    (* new Error(`Illegal transition: ${from} -> ${to}`) *)
| MLNotInitialized
    (* new Error('ML not initialized. Call initializeML() first.') *)
| ModelNotInitialized
    (* new Error('Model not initialized...'), CNNModel and LSTMModel *)
| EnsembleNotInitialized
    (* new Error('Ensemble not initialized') *)
| SyntaxError
    (* thrown by new RegExp on a malformed source or flag string *)
| TypeError
    (* a method call on null or on a value without that method;
       JSON.stringify on a BigInt or on a cyclic value; ToString on an
       object without a callable toString *)
| TensorFlowError.
    (* an Error raised inside TensorFlow.js *)

Inductive result (A : Type) : Type :=
| Ok (a : A)
| Throw (e : Error).
Arguments Ok {A} a.
Arguments Throw {A} e.

Definition succeeds {A} (r : result A) : bool :=
  match r with Ok _ => true | Throw _ => false end.

(** ** JavaScript values held in a [Record<string, unknown>] *)

Module JS.

(** The values a snapshot or a state's data map carries: the primitives,
    and plain objects and arrays of them.  A finite number is an integer
    ([JNum]) or given by its value ([JFrac]); the doubles are among them.
    A plain object or an array comes with its identity [id] (two
    occurrences of one object carry the same [id] and the same contents)
    and its own enumerable properties in enumeration order, with
    pairwise distinct keys; a reference back to an object that encloses
    the occurrence, which makes the value cyclic, is [JCyclic].
    [unknown] admits more (functions, symbols, accessor properties,
    objects with another prototype such as Date or Map); these are
    outside the model. *)
#[local] Set Warnings "-register-all".
Inductive jsval : Type :=
| JUndefined
| JNull
| JBool (b : bool)
| JNum (z : Z)
| JStr (s : string)
| JFrac (q : Qc)
| JNaN
| JInfinity (negative : bool)
| JBigInt (z : Z)
| JObject (id : nat) (props : list (string * jsval))
| JArray (id : nat) (elems : list jsval)
| JCyclic (id : nat).

(** Induction on values, through the properties of an object and the
    elements of an array. *)
Section jsval_induction.
Variable P : jsval -> Prop.
Hypothesis HUndefined : P JUndefined.
Hypothesis HNull : P JNull.
Hypothesis HBool : forall b, P (JBool b).
Hypothesis HNum : forall z, P (JNum z).
Hypothesis HStr : forall s, P (JStr s).
Hypothesis HFrac : forall q, P (JFrac q).
Hypothesis HNaN : P JNaN.
Hypothesis HInfinity : forall negative, P (JInfinity negative).
Hypothesis HBigInt : forall z, P (JBigInt z).
Hypothesis HObject :
  forall id props, Forall (fun kv => P (snd kv)) props -> P (JObject id props).
Hypothesis HArray : forall id elems, Forall P elems -> P (JArray id elems).
Hypothesis HCyclic : forall id, P (JCyclic id).

Fixpoint jsval_nested_ind (v : jsval) : P v :=
  match v with
  | JUndefined => HUndefined
  | JNull => HNull
  | JBool b => HBool b
  | JNum z => HNum z
  | JStr s => HStr s
  | JFrac q => HFrac q
  | JNaN => HNaN
  | JInfinity negative => HInfinity negative
  | JBigInt z => HBigInt z
  | JObject id props =>
      HObject id props
        ((fix members (ps : list (string * jsval)) : Forall (fun kv => P (snd kv)) ps :=
            match ps with
            | [] => @List.Forall_nil _ _
            | (k, v') :: ps' =>
                @List.Forall_cons _ (fun kv => P (snd kv)) (k, v') ps'
                  (jsval_nested_ind v') (members ps')
            end) props)
  | JArray id elems =>
      HArray id elems
        ((fix elements (es : list jsval) : Forall P es :=
            match es with
            | [] => @List.Forall_nil _ _
            | e :: es' => @List.Forall_cons _ P e es' (jsval_nested_ind e) (elements es')
            end) elems)
  | JCyclic id => HCyclic id
  end.
End jsval_induction.

(** The value of a finite number, and the identity of an object. *)
Definition number_value (v : jsval) : option Qc :=
  match v with
  | JNum z => Some (Qc_of_Z z)
  | JFrac q => Some q
  | _ => None
  end.

Definition identity (v : jsval) : option nat :=
  match v with
  | JObject id _ | JArray id _ | JCyclic id => Some id
  | _ => None
  end.

(** [a === b]: numbers by value, objects by identity, [NaN] equal to
    nothing. *)
Definition strict_eq (a b : jsval) : bool :=
  match number_value a, number_value b with
  | Some x, Some y => bool_decide (x = y)
  | Some _, None | None, Some _ => false
  | None, None =>
      match identity a, identity b with
      | Some i, Some j => Nat.eqb i j
      | Some _, None | None, Some _ => false
      | None, None =>
          match a, b with
          | JUndefined, JUndefined => true
          | JNull, JNull => true
          | JBool x, JBool y => Bool.eqb x y
          | JStr x, JStr y => String.eqb x y
          | JBigInt x, JBigInt y => Z.eqb x y
          | JInfinity x, JInfinity y => Bool.eqb x y
          | _, _ => false
          end
      end
  end.

(** [a !== b] *)
Definition strict_neq (a b : jsval) : bool := negb (strict_eq a b).

(** An object is the list of its own properties in enumeration order;
    keys are pairwise distinct. *)
Definition record : Type := list (string * jsval).

Fixpoint lookup_prop (k : string) (o : record) : option jsval :=
  match o with
  | [] => None
  | (k', v) :: o' => if String.eqb k k' then Some v else lookup_prop k o'
  end.

(** The names under which a plain object finds a value in
    Object.prototype when it has no own property of that name.  Each of
    these values is a function, but for [__proto__], which reads as the
    prototype itself: none is falsy, none is a number, and none has a
    method [includes]. *)
Definition Object_prototype_properties : list string :=
  [ "constructor"; "__defineGetter__"; "__defineSetter__"; "hasOwnProperty";
    "__lookupGetter__"; "__lookupSetter__"; "isPrototypeOf"; "propertyIsEnumerable";
    "toString"; "valueOf"; "__proto__"; "toLocaleString" ]%string.

(** [o.k] for a name [k] that Object.prototype does not define: a
    missing property reads as [undefined]. *)
Definition get (o : record) (k : string) : jsval :=
  default JUndefined (lookup_prop k o).

(** [o.k = v]: overwrite in place, or append a new property. *)
Fixpoint set (k : string) (v : jsval) (o : record) : record :=
  match o with
  | [] => [(k, v)]
  | (k', v') :: o' =>
      if String.eqb k k' then (k, v) :: o' else (k', v') :: set k v o'
  end.

(** Two objects are deep-equal when they have the same properties with
    the same values; the order of the properties is immaterial. *)
Definition deep_equal (a b : record) : Prop :=
  forall k, lookup_prop k a = lookup_prop k b.

(** *** ToString, as a template literal applies it

    Whether ToString(v) returns.  On an object it goes through
    [toString] and [valueOf]: an own property [toString] hides
    Object.prototype.toString and, being data, is not callable, and
    valueOf does not give a primitive, so TypeError is raised.  On an
    array it is [join], which converts every element but [undefined] and
    [null].  For a back reference the answer is immaterial where it is
    used: JSON.stringify, called next on the same snapshot, raises
    TypeError on it. *)
Fixpoint ToString_returns (v : jsval) : bool :=
  match v with
  | JObject _ props =>
      forallb (fun kv => negb (String.eqb (fst kv) "toString")) props
  | JArray _ elems =>
      (fix elements (es : list jsval) : bool :=
         match es with
         | [] => true
         | e :: es' => ToString_returns e && elements es'
         end) elems
  | _ => true
  end.

(** *** JSON.stringify *)

Definition hex_digit (n : N) : ascii :=
  ascii_of_N (if (n <? 10)%N then 48 + n else 87 + n)%N.

Definition dquote : string := String (ascii_of_N 34) EmptyString.

(** QuoteJSONString, one code unit at a time. *)
Definition quote_char (c : ascii) : string :=
  let n := N_of_ascii c in
  if (n =? 34)%N then String "\" dquote
  else if (n =? 92)%N then "\\"
  else if (n =? 8)%N then "\b"
  else if (n =? 12)%N then "\f"
  else if (n =? 10)%N then "\n"
  else if (n =? 13)%N then "\r"
  else if (n =? 9)%N then "\t"
  else if (n <? 32)%N then
    String.append "\u00"
      (String (hex_digit (n / 16)) (String (hex_digit (n mod 16)) EmptyString))
  else String c EmptyString.

Fixpoint quote_body (s : string) : string :=
  match s with
  | EmptyString => EmptyString
  | String c s' => String.append (quote_char c) (quote_body s')
  end.

Definition quote (s : string) : string :=
  String.append dquote (String.append (quote_body s) dquote).

(** Number::toString.  An integer of magnitude below 10^21 prints its
    decimal digits; the text of any other finite number (a fraction, or
    an exponent form such as 1e+21) is left to the engine. *)
Class NumberFormat : Type := { Number_toString : Qc -> string }.

Definition number_text `{NumberFormat} (q : Qc) : string :=
  let n := Qnum q in
  if (Qden q =? 1)%positive && (Z.abs n <? 1000000000000000000000)
  then NilZero.string_of_int (Z.to_int n)
  else Number_toString q.

Fixpoint join (sep : string) (l : list string) : string :=
  match l with
  | [] => EmptyString
  | [x] => x
  | x :: l' => String.append x (String.append sep (join sep l'))
  end.

(** A member [key:value] of an object; a property whose value
    serializes to [undefined] is left out. *)
Definition add_member (k : string) (sv : option string) (l : list string) : list string :=
  match sv with
  | Some s => String.append (quote k) (String.append ":" s) :: l
  | None => l
  end.

(** An element of an array; [undefined] is written [null]. *)
Definition add_element (sv : option string) (l : list string) : list string :=
  default "null"%string sv :: l.

Definition braces (l : list string) : string :=
  String.append "{" (String.append (join "," l) "}").

Definition brackets (l : list string) : string :=
  String.append "[" (String.append (join "," l) "]").

Section Stringify.
Context {format : NumberFormat}.

(** SerializeJSONProperty; [Ok None] is the [undefined] result.  A
    BigInt raises TypeError, and so does an object that is already on
    the stack of the objects being serialized. *)
Fixpoint serialize_value (v : jsval) : result (option string) :=
  match v with
  | JUndefined => Ok None
  | JNull => Ok (Some "null"%string)
  | JBool true => Ok (Some "true"%string)
  | JBool false => Ok (Some "false"%string)
  | JNum z => Ok (Some (number_text (Qc_of_Z z)))
  | JStr s => Ok (Some (quote s))
  | JFrac q => Ok (Some (number_text q))
  | JNaN => Ok (Some "null"%string)
  | JInfinity _ => Ok (Some "null"%string)
  | JBigInt _ => Throw TypeError
  | JObject _ props =>
      match
        (fix members (ps : list (string * jsval)) : result (list string) :=
           match ps with
           | [] => Ok []
           | (k, v') :: ps' =>
               match serialize_value v' with
               | Throw e => Throw e
               | Ok sv =>
                   match members ps' with
                   | Throw e => Throw e
                   | Ok l => Ok (add_member k sv l)
                   end
               end
           end) props
      with
      | Throw e => Throw e
      | Ok l => Ok (Some (braces l))
      end
  | JArray _ elems =>
      match
        (fix elements (es : list jsval) : result (list string) :=
           match es with
           | [] => Ok []
           | v' :: es' =>
               match serialize_value v' with
               | Throw e => Throw e
               | Ok sv =>
                   match elements es' with
                   | Throw e => Throw e
                   | Ok l => Ok (add_element sv l)
                   end
               end
           end) elems
      with
      | Throw e => Throw e
      | Ok l => Ok (Some (brackets l))
      end
  | JCyclic _ => Throw TypeError
  end.

(** SerializeJSONObject on the own properties of an object. *)
Fixpoint serialize_members (ps : record) : result (list string) :=
  match ps with
  | [] => Ok []
  | (k, v) :: ps' =>
      match serialize_value v with
      | Throw e => Throw e
      | Ok sv =>
          match serialize_members ps' with
          | Throw e => Throw e
          | Ok l => Ok (add_member k sv l)
          end
      end
  end.

(** SerializeJSONArray on the elements of an array. *)
Fixpoint serialize_elements (es : list jsval) : result (list string) :=
  match es with
  | [] => Ok []
  | v :: es' =>
      match serialize_value v with
      | Throw e => Throw e
      | Ok sv =>
          match serialize_elements es' with
          | Throw e => Throw e
          | Ok l => Ok (add_element sv l)
          end
      end
  end.

(** [JSON.stringify(o)] for an object [o]. *)
Definition JSON_stringify (o : record) : result string :=
  match serialize_members o with
  | Throw e => Throw e
  | Ok l => Ok (braces l)
  end.
End Stringify.

(** The values JSON.stringify accepts: no BigInt and no cycle. *)
Fixpoint serializable (v : jsval) : bool :=
  match v with
  | JBigInt _ | JCyclic _ => false
  | JObject _ props =>
      (fix members (ps : list (string * jsval)) : bool :=
         match ps with
         | [] => true
         | (_, v') :: ps' => serializable v' && members ps'
         end) props
  | JArray _ elems =>
      (fix elements (es : list jsval) : bool :=
         match es with
         | [] => true
         | e :: es' => serializable e && elements es'
         end) elems
  | _ => true
  end.

Definition serializable_record (o : record) : bool :=
  forallb (fun kv => serializable (snd kv)) o.

(** How the outcome of a serialization goes with acceptance: it
    returns for an accepted value and raises TypeError for another. *)
Definition stringify_outcome {A} (r : result A) (accepted : bool) : Prop :=
  match r with
  | Ok _ => accepted = true
  | Throw e => e = TypeError /\ accepted = false
  end.

End JS.

(** ** Numbers *)

Definition number : Type := Q.

(** [a < b] on numbers, as a boolean. *)
Definition Qltb (a b : Q) : bool := negb (Qle_bool b a).

(** [Math.min] *)
Definition Math_min (a b : Q) : Q := if Qle_bool a b then a else b.

(** ** The RegExp built-in *)

(** [RegExp_new source flags] is [new RegExp(source, flags)]: [None] when
    the constructor throws SyntaxError.  [RegExp_test re s] is
    [re.test(s)] on a freshly built object ([lastIndex] is 0). *)
Class RegExpEngine : Type := {
  RegExp : Type;
  RegExp_new : string -> string -> option RegExp;
  RegExp_test : RegExp -> string -> bool
}.

(** ** Patterns (types.ts: IDeceptionHunterPattern) *)

Inductive Severity : Type := low | medium | high.

Record IDeceptionHunterPattern : Type := mkPattern {
  type : string;
  regex : string;
  severity : Severity
}.

#[global] Instance Severity_eq_dec : EqDecision Severity.
Proof. solve_decision. Defined.

#[global] Instance IDeceptionHunterPattern_eq_dec : EqDecision IDeceptionHunterPattern.
Proof. solve_decision. Defined.

(** *** Rules written as "/source/flags" *)

Module RegexLiteral.

Definition slash : ascii := ascii_of_N 47.

(** Line terminators, which [.] does not match. *)
Definition is_line_terminator (c : ascii) : bool :=
  let n := N_of_ascii c in ((n =? 10) || (n =? 13))%N.

(** Split a string at its last '/'. *)
Fixpoint split_last_slash (s : string) : option (string * string) :=
  match s with
  | EmptyString => None
  | String c s' =>
      match split_last_slash s' with
      | Some (a, b) => Some (String c a, b)
      | None => if Ascii.eqb c slash then Some (EmptyString, s') else None
      end
  end.

Fixpoint forallb_string (f : ascii -> bool) (s : string) : bool :=
  match s with
  | EmptyString => true
  | String c s' => f c && forallb_string f s'
  end.

Definition in_class (cls : string) (c : ascii) : bool :=
  negb (forallb_string (fun d => negb (Ascii.eqb c d)) cls).

Definition no_slash (s : string) : bool :=
  forallb_string (fun c => negb (Ascii.eqb c slash)) s.

(** [s.match(re)] for the anchored expression [re] that reads: a '/',
    a group of any characters but line terminators (greedy; at least
    one of them when [nonempty]), a '/', a group of characters of
    [flag_class], end of input.  The result is the two groups
    (source, flags) when the match succeeds.  The greedy first group
    backtracks to the last '/', since no flag character is a '/'. *)
Definition match_literal (nonempty : bool) (flag_class : string) (s : string)
  : option (string * string) :=
  match s with
  | String c rest =>
      if Ascii.eqb c slash then
        match split_last_slash rest with
        | Some (source, flags) =>
            if forallb_string (fun d => negb (is_line_terminator d)) source
               && forallb_string (in_class flag_class) flags
               && (negb nonempty || negb (String.eqb source EmptyString))
            then Some (source, flags) else None
        | None => None
        end
      else None
  | EmptyString => None
  end.

End RegexLiteral.

(** ** deception-hunter.ts: DeceptionHunter *)

Module DeceptionHunter.

Record IClickVerification : Type := mkClickVerification {
  before_state : JS.record;
  after_state : JS.record;
  verified : bool;
  confidence : number
}.

(** The object's one field that the modelled methods use. *)
Record t : Type := mk { patterns : list IDeceptionHunterPattern }.

Definition addPattern (pattern : IDeceptionHunterPattern) (this : t) : t :=
  {| patterns := patterns this ++ [pattern] |}.

Definition constructor : t :=
  addPattern (mkPattern "FAKE_ELEMENT" "/hidden|invisible|opacity-0|pointer-events-none/i" medium)
 (addPattern (mkPattern "PHISHING" "/phishing|spoof|clone|fake_login/i" high)
 (addPattern (mkPattern "HONEYPOT" "/honeypot|trap|decoy|fake/i" medium)
 (addPattern (mkPattern "CAPTCHA" "/captcha|recaptcha|challenge|verification/i" high)
    {| patterns := [] |}))).

Section Analyze.
Context {engine : RegExpEngine}.

(** The body of the [for] loop of [analyze], with the array [matched]
    threaded through; [new RegExp] is not guarded, so its SyntaxError
    leaves the loop and the method. *)
Fixpoint analyze_loop (ps : list IDeceptionHunterPattern) (page_content : string)
    (matched : list IDeceptionHunterPattern) : result (list IDeceptionHunterPattern) :=
  match ps with
  | [] => Ok matched
  | pattern :: ps' =>
      match RegexLiteral.match_literal false "gimsuy" (regex pattern) with
      | Some (source, flags) =>
          match RegExp_new source flags with
          | None => Throw SyntaxError
          | Some re =>
              if RegExp_test re page_content
              then analyze_loop ps' page_content (matched ++ [pattern])
              else analyze_loop ps' page_content matched
          end
      | None => analyze_loop ps' page_content matched
      end
  end.

Definition analyze (this : t) (page_content : string)
  : result (list IDeceptionHunterPattern) :=
  analyze_loop (patterns this) page_content [].

(** The two things one round of the loop can do with a pattern:
    raise the SyntaxError of [new RegExp], or test the content. *)
Definition rule_throws (pattern : IDeceptionHunterPattern) : bool :=
  match RegexLiteral.match_literal false "gimsuy" (regex pattern) with
  | Some (source, flags) =>
      match RegExp_new source flags with None => true | Some _ => false end
  | None => false
  end.

Definition rule_matches (pattern : IDeceptionHunterPattern) (page_content : string) : bool :=
  match RegexLiteral.match_literal false "gimsuy" (regex pattern) with
  | Some (source, flags) =>
      match RegExp_new source flags with
      | None => false
      | Some re => RegExp_test re page_content
      end
  | None => false
  end.
End Analyze.

Section VerifyClick.
Context {format : JS.NumberFormat}.

(** verifyClick(before, after).  The log lines it builds are local and
    dropped on return; what remains of the first one is the conversion
    of the two url values to strings, which can raise.  Both snapshots
    are serialized whether or not the url differs. *)
Definition verifyClick (before after : JS.record) : result IClickVerification :=
  let verified := false in
  match
    (if JS.strict_neq (JS.get before "url") (JS.get after "url")
     then
       if JS.ToString_returns (JS.get before "url")
          && JS.ToString_returns (JS.get after "url")
       then Ok true
       else Throw TypeError
     else Ok verified)
  with
  | Throw e => Throw e
  | Ok verified =>
      match JS.JSON_stringify before with
      | Throw e => Throw e
      | Ok beforeStr =>
          match JS.JSON_stringify after with
          | Throw e => Throw e
          | Ok afterStr =>
              let verified :=
                if negb (String.eqb beforeStr afterStr) && negb verified
                then true else verified in
              Ok {| before_state := before;
                    after_state := after;
                    verified := verified;
                    confidence := if verified then 1.0%Q else 0.0%Q |}
          end
      end
  end.
End VerifyClick.

(** getConfidence(matchedPatterns, clickVerification) *)
Definition getConfidence (matchedPatterns : list IDeceptionHunterPattern)
    (clickVerification : IClickVerification) : Z :=
  if negb (verified clickVerification) then 0
  else
    Z.max 0
      (fold_left (fun score pattern =>
                    match severity pattern with
                    | low => score - 10
                    | medium => score - 30
                    | high => score - 50
                    end) matchedPatterns 100).

(** The penalty [getConfidence] subtracts for a matched pattern, and the
    sum of the penalties of a list of patterns. *)
Definition severity_penalty (s : Severity) : Z :=
  match s with low => 10 | medium => 30 | high => 50 end.

Definition total_penalty (ps : list IDeceptionHunterPattern) : Z :=
  foldr (fun pattern sum => severity_penalty (severity pattern) + sum) 0 ps.

(** types.ts: IDeceptionHunterResult *)
Module IDeceptionHunterResult.
Record t : Type := mk {
  verified : bool;
  confidence : Z;
  matched_patterns : list string;
  logs : list string
}.
End IDeceptionHunterResult.

Section FullAnalysis.
Context {engine : RegExpEngine} {format : JS.NumberFormat}.

End FullAnalysis.

End DeceptionHunter.

(** ** ml/preprocessor.ts: MLPreprocessor *)

(** [String.prototype.toLowerCase] on 8-bit code units (A-Z and the
    upper-case letters of Latin-1). *)
Definition toLowerCase_char (c : ascii) : ascii :=
  let n := N_of_ascii c in
  if ((65 <=? n) && (n <=? 90))%N then ascii_of_N (n + 32)
  else if ((192 <=? n) && (n <=? 222) && negb (n =? 215))%N then ascii_of_N (n + 32)
  else c.

Fixpoint toLowerCase (s : string) : string :=
  match s with
  | EmptyString => EmptyString
  | String c s' => String (toLowerCase_char c) (toLowerCase s')
  end.

(** A value put into the rows of a tensor: a number, or the value that
    a plain object inherits from Object.prototype under [name] (see
    [JS.Object_prototype_properties]). *)
Inductive feature : Type :=
| FNumber (x : number)
| FInherited (name : string).

(** What the preprocessor and the model wrappers take from their
    libraries: the regular-expression pipeline that turns markup into
    tokens ([extractTextFromHTML] followed by [tokenize]), the forward
    pass of each TensorFlow network, and [tf.tensor2d(rows, [n, m],
    'float32')].  Of the latter the model knows what it returns for [n]
    rows of [m] numbers; what it does with a row that holds another
    value is left to the library. *)
Class MLRuntime : Type := {
  html_tokens : string -> list string;
  CNNNet : Type;
  LSTMNet : Type;
  MetaNet : Type;
  cnn_forward : CNNNet -> list number -> number;
  lstm_forward : LSTMNet -> list (list number) -> number;
  meta_forward : MetaNet -> number -> number -> number -> number;
  tensor2d : list (list feature) -> Z -> Z -> result (list (list number));
  tensor2d_numbers :
    forall (rows : list (list number)) (n m : Z),
      Z.of_nat (length rows) = n ->
      Forall (fun row => Z.of_nat (length row) = m) rows ->
      tensor2d (fmap (M:=list) (fmap (M:=list) FNumber) rows) n m = Ok rows
}.

Record Interaction : Type := mkInteraction {
  action : string;
  timestamp : number;
  x : option number;
  y : option number;
  metadata_confidence : option number   (* metadata?.confidence *)
}.

Module MLPreprocessor.

Record t : Type := mk {
  vocab : gmap string Z;
  vocabSize : Z;
  sequenceLength : Z
}.

Definition commonTokens : list string :=
  [ "captcha"; "recaptcha"; "challenge"; "verification"; "verify";
    "honeypot"; "trap"; "decoy"; "fake"; "hidden"; "invisible";
    "phishing"; "spoof"; "clone"; "login"; "submit"; "click";
    "button"; "form"; "input"; "password"; "username"; "email";
    "suspicious"; "warning"; "danger"; "alert"; "error";
    "script"; "redirect"; "popup"; "overlay"; "modal" ]%string.

(** commonTokens.forEach((token, index) =>
      this.vocab.set(token.toLowerCase(), index + 1)) *)
Definition initializeDefaultVocab (this : t) : t :=
  {| vocab :=
       foldl (fun v '(index, token) => <[toLowerCase token := Z.of_nat index + 1]> v)
             (vocab this) (imap pair commonTokens);
     vocabSize := vocabSize this;
     sequenceLength := sequenceLength this |}.

Definition constructor (vocabSize sequenceLength : Z) : t :=
  initializeDefaultVocab
    {| vocab := ∅; vocabSize := vocabSize; sequenceLength := sequenceLength |}.

(** One round of the [forEach] of [addTokens]. *)
Definition addToken (this : t) (token : string) : t :=
  let idx := Z.of_nat (size (vocab this)) + 1 in
  if (idx <=? vocabSize this) && negb (bool_decide (is_Some (vocab this !! toLowerCase token)))
  then {| vocab := <[toLowerCase token := idx]> (vocab this);
          vocabSize := vocabSize this;
          sequenceLength := sequenceLength this |}
  else this.

Definition addTokens (tokens : list string) (this : t) : t :=
  foldl addToken this tokens.

Definition getVocab (this : t) : gmap string Z := vocab this.

(** actionMap[action] || 0.1, where [actionMap] is an object literal:
    the weight of a listed action; else what Object.prototype holds
    under that name, which is not falsy; else [undefined], and so 0.1. *)
Definition actionToFeature (action : string) : feature :=
  if String.eqb action "CLICK" then FNumber 1.0%Q
  else if String.eqb action "HOVER" then FNumber 0.5%Q
  else if String.eqb action "SCROLL" then FNumber 0.3%Q
  else if String.eqb action "INPUT" then FNumber 0.7%Q
  else if String.eqb action "SUBMIT" then FNumber 1.0%Q
  else if String.eqb action "UNKNOWN" then FNumber 0.1%Q
  else if bool_decide (action ∈ JS.Object_prototype_properties) then FInherited action
  else FNumber 0.1%Q.

(** The row [sequenceFromInteractions] builds for one record, and the
    row it pads with.  [metadata.confidence] is a number when present,
    as the cast in the source asserts. *)
Definition feature_row (interaction : Interaction) : list feature :=
  [ actionToFeature (action interaction);
    FNumber (default 0%Q (x interaction) / 1000)%Q;
    FNumber (default 0%Q (y interaction) / 1000)%Q;
    FNumber (default 0%Q (metadata_confidence interaction)) ].

Definition zero_row : list feature := [FNumber 0; FNumber 0; FNumber 0; FNumber 0]%Q.

(** The array [features] of [sequenceFromInteractions] when the tensor
    is built: one row for each of the first [sequenceLength] records,
    then rows of zeros up to [sequenceLength]. *)
Definition features (this : t) (interactions : list Interaction) : list (list feature) :=
  let features :=
    feature_row <$> take (Z.to_nat (sequenceLength this)) interactions in
  features ++ replicate (Z.to_nat (sequenceLength this) - length features)%nat zero_row.

(** sequenceFromInteractions(interactions):
      tf.tensor2d(features, [this.sequenceLength, 4], 'float32') *)
Definition sequenceFromInteractions `{MLRuntime} (this : t) (interactions : list Interaction)
  : result (list (list number)) :=
  tensor2d (features this interactions) (sequenceLength this) 4.

(** The tensor built by [preprocessContent]: the vocabulary indices of
    the first [vocabSize] tokens (0 for an unknown token), padded with
    zeros to [vocabSize]. *)
Definition preprocessContent `{MLRuntime} (this : t) (htmlContent : string)
  : list number :=
  let indices :=
    (fun token => default 0 (vocab this !! toLowerCase token)) <$> html_tokens htmlContent in
  let head := take (Z.to_nat (vocabSize this)) indices in
  (inject_Z <$> head) ++ replicate (Z.to_nat (vocabSize this) - length head)%nat 0%Q.

(** What [addToken] keeps true, for a preprocessor of capacity
    [capacity]: the seeded tokens stay, the indices stay in range, and a
    token that was not seeded has an index above 33 within the capacity. *)
Definition vocabulary_bounded (capacity : Z) (this : t) : Prop :=
  MLPreprocessor.vocabSize this = capacity /\
  33 <= Z.of_nat (size (vocab this)) <= Z.max capacity 33 /\
  (forall token idx, vocab this !! token = Some idx -> 1 <= idx <= Z.max capacity 33) /\
  (forall token idx,
      vocab (constructor 0 0) !! token = None ->
      vocab this !! token = Some idx -> 33 < idx <= capacity).

(** The weight of an action that [actionMap] lists, and the weight 0.1
    of any other action. *)
Definition action_weight (action : string) : number :=
  (if String.eqb action "CLICK" then 1.0
   else if String.eqb action "HOVER" then 0.5
   else if String.eqb action "SCROLL" then 0.3
   else if String.eqb action "INPUT" then 0.7
   else if String.eqb action "SUBMIT" then 1.0
   else 0.1)%Q.

(** The actions whose feature is a number. *)
Definition numeric_action (action : string) : Prop :=
  action ∉ JS.Object_prototype_properties.

(** The rows of numbers of a tensor: for a record, and for padding. *)
Definition number_row (interaction : Interaction) : list number :=
  [ action_weight (action interaction);
    (default 0%Q (x interaction) / 1000)%Q;
    (default 0%Q (y interaction) / 1000)%Q;
    default 0%Q (metadata_confidence interaction) ].

Definition zero_numbers : list number := [0; 0; 0; 0]%Q.

(** The tensor of a history whose actions have numeric features. *)
Definition number_rows (this : t) (interactions : list Interaction) : list (list number) :=
  let n := Z.to_nat (sequenceLength this) in
  (number_row <$> take n interactions)
  ++ replicate (n - length (take n interactions))%nat zero_numbers.

(** The vocabulary as a numbering: every index lies between 1 and the
    number of entries, no two tokens share an index, and every key is in
    lower case. *)
Definition vocabulary_numbering (this : t) : Prop :=
  (forall token idx, vocab this !! token = Some idx ->
                     1 <= idx <= Z.of_nat (size (vocab this))) /\
  (forall token1 token2 idx,
      vocab this !! token1 = Some idx -> vocab this !! token2 = Some idx ->
      token1 = token2) /\
  (forall token idx, vocab this !! token = Some idx -> toLowerCase token = token).

End MLPreprocessor.

(** ** ml/cnn-model.ts, ml/lstm-model.ts: the model wrappers *)

Module CNNModel.
Section Wrapper.
Context {rt : MLRuntime}.

Record t : Type := mk { model : option CNNNet }.

Definition predict (this : t) (input : list number) : result number :=
  match model this with
  | None => Throw ModelNotInitialized
  | Some m => Ok (cnn_forward m input)
  end.

Definition dispose (this : t) : t := {| model := None |}.
End Wrapper.
End CNNModel.

Module LSTMModel.
Section Wrapper.
Context {rt : MLRuntime}.

Record t : Type := mk { model : option LSTMNet }.

Definition predict (this : t) (input : list (list number)) : result number :=
  match model this with
  | None => Throw ModelNotInitialized
  | Some m => Ok (lstm_forward m input)
  end.

Definition dispose (this : t) : t := {| model := None |}.
End Wrapper.
End LSTMModel.

(** ** ml/ensemble.ts: EnsembleModel *)

Module EnsembleModel.

Inductive Verdict : Type := SAFE | LOW_RISK | MEDIUM | HIGH_THREAT.

#[global] Instance Verdict_eq_dec : EqDecision Verdict.
Proof. solve_decision. Defined.

(** The risk ordering SAFE < LOW_RISK < MEDIUM < HIGH_THREAT. *)
Definition rank (v : Verdict) : nat :=
  match v with SAFE => 0 | LOW_RISK => 1 | MEDIUM => 2 | HIGH_THREAT => 3 end%nat.

(** calculateHybridScore(regexScore, mlScore):
      return (regexScore * 0.40) + (mlScore * 0.60); *)
Definition calculateHybridScore (regexScore mlScore : number) : number :=
  ((regexScore * 0.40) + (mlScore * 0.60))%Q.

(** getVerdict(score): four early returns. *)
Definition getVerdict (score : number) : Verdict :=
  if Qltb score 0.2 then SAFE
  else if Qltb score 0.4 then LOW_RISK
  else if Qltb score 0.7 then MEDIUM
  else HIGH_THREAT.

Section Wrapper.
Context {rt : MLRuntime}.

Record t : Type := mk { metaLearner : option MetaNet; isInitialized : bool }.

(** predict(cnnScore, lstmScore, regexScore): the meta-learner is fed
    [regexScore / 100]. *)
Definition predict (this : t) (cnnScore lstmScore regexScore : number)
  : result number :=
  match metaLearner this with
  | Some m =>
      if isInitialized this
      then Ok (meta_forward m cnnScore lstmScore (regexScore / 100)%Q)
      else Throw EnsembleNotInitialized
  | None => Throw EnsembleNotInitialized
  end.

Definition dispose (this : t) : t :=
  {| metaLearner := None; isInitialized := isInitialized this |}.
End Wrapper.
End EnsembleModel.

(** ** ml/ml-deception-hunter.ts: MLDeceptionHunter *)

Module MLDeceptionHunter.

(** The calls [analyzeWithML] makes on its collaborators, in order. *)
Inductive Call : Type :=
| CallPreprocessContent (page_content : string)
| CallCnnPredict (input : list number)
| CallSequenceFromInteractions (interactions : list Interaction)
| CallLstmPredict (input : list (list number))
| CallEnsemblePredict (cnnScore lstmScore regexScore : number).

Record Analysis : Type := mkAnalysis {
  regex_score : number;
  ml_score : number;
  final_score : number;
  confidence : number;
  verdict : EnsembleModel.Verdict;
  matched_patterns : list IDeceptionHunterPattern;
  cnn_score : number;
  lstm_score : number
}.

Section Hunter.
Context {engine : RegExpEngine} {rt : MLRuntime}.

Record t : Type := mk {
  baseHunterPatterns : list IDeceptionHunterPattern;
  preprocessor : MLPreprocessor.t;
  cnnModel : option CNNModel.t;
  lstmModel : option LSTMModel.t;
  ensemble : option EnsembleModel.t;
  mlEnabled : bool
}.

Definition addPattern (pattern : IDeceptionHunterPattern) (this : t) : t :=
  {| baseHunterPatterns := baseHunterPatterns this ++ [pattern];
     preprocessor := preprocessor this;
     cnnModel := cnnModel this; lstmModel := lstmModel this;
     ensemble := ensemble this; mlEnabled := mlEnabled this |}.

Definition initializePredefinedPatterns (this : t) : t :=
  addPattern (mkPattern "FAKE_ELEMENT" "/hidden|invisible|opacity-0|pointer-events-none/i" medium)
 (addPattern (mkPattern "PHISHING" "/phishing|spoof|clone|fake_login/i" high)
 (addPattern (mkPattern "HONEYPOT" "/honeypot|trap|decoy|fake/i" medium)
 (addPattern (mkPattern "CAPTCHA" "/captcha|recaptcha|challenge|verification/i" high)
    this))).

Definition constructor : t :=
  initializePredefinedPatterns
    {| baseHunterPatterns := [];
       preprocessor := MLPreprocessor.constructor 1000 100;
       cnnModel := None; lstmModel := None; ensemble := None;
       mlEnabled := false |}.

(** initializeML(): the three networks that createCNNModel,
    createLSTMModel and createEnsembleModel build are arguments. *)
Definition initializeML (cnn : CNNNet) (lstm : LSTMNet) (meta : MetaNet) (this : t) : t :=
  if mlEnabled this then this
  else
    {| baseHunterPatterns := baseHunterPatterns this;
       preprocessor := preprocessor this;
       cnnModel := Some {| CNNModel.model := Some cnn |};
       lstmModel := Some {| LSTMModel.model := Some lstm |};
       ensemble := Some {| EnsembleModel.metaLearner := Some meta;
                           EnsembleModel.isInitialized := true |};
       mlEnabled := true |}.

Definition dispose (this : t) : t :=
  {| baseHunterPatterns := baseHunterPatterns this;
     preprocessor := preprocessor this;
     cnnModel := CNNModel.dispose <$> cnnModel this;
     lstmModel := LSTMModel.dispose <$> lstmModel this;
     ensemble := EnsembleModel.dispose <$> ensemble this;
     mlEnabled := false |}.

(** One round of the [for] loop of [analyze]: whether the pattern is
    pushed.  The [try] block turns the SyntaxError of [new RegExp]
    into "not pushed". *)
Definition rule_matches (pattern : IDeceptionHunterPattern) (page_content : string) : bool :=
  match RegexLiteral.match_literal true "gimuy" (regex pattern) with
  | Some (source, flags) =>
      match RegExp_new source flags with
      | None => false                       (* catch (error) *)
      | Some re => RegExp_test re page_content
      end
  | None => false
  end.

Fixpoint analyze_loop (ps : list IDeceptionHunterPattern) (page_content : string)
    (matched : list IDeceptionHunterPattern) : list IDeceptionHunterPattern :=
  match ps with
  | [] => matched
  | pattern :: ps' =>
      if rule_matches pattern page_content
      then analyze_loop ps' page_content (matched ++ [pattern])
      else analyze_loop ps' page_content matched
  end.

Definition analyze (this : t) (page_content : string) : list IDeceptionHunterPattern :=
  analyze_loop (baseHunterPatterns this) page_content [].

(** Whether [new RegExp] raises for the rule of a pattern. *)
Definition rule_throws (pattern : IDeceptionHunterPattern) : bool :=
  match RegexLiteral.match_literal true "gimuy" (regex pattern) with
  | Some (source, flags) =>
      match RegExp_new source flags with None => true | Some _ => false end
  | None => false
  end.

(** The weight [analyzeRegex] adds for a matched pattern. *)
Definition severity_weight (s : Severity) : Z :=
  match s with low => 10 | medium => 20 | high => 30 end.

(** analyzeRegex(page_content) *)
Definition analyzeRegex (this : t) (page_content : string) : Z :=
  let matched := analyze this page_content in
  if (length matched =? 0)%nat then 0
  else
    Z.min 100
      (fold_left (fun score pattern =>
                    match severity pattern with
                    | high => score + 30
                    | medium => score + 20
                    | low => score + 10
                    end) matched 0).

(** *** analyzeWithML, with the trace of its calls *)

Definition M (A : Type) : Type := (list Call * result A)%type.

Definition ret {A} (a : A) : M A := ([], Ok a).

Definition bind {A B} (m : M A) (f : A -> M B) : M B :=
  match m with
  | (tr, Ok a) => let '(tr', r) := f a in (tr ++ tr', r)
  | (tr, Throw e) => (tr, Throw e)
  end.

Definition call {A} (c : Call) (r : result A) : M A := ([c], r).

Definition throw {A} (e : Error) : M A := ([], Throw e).

Notation "'let*' x := m 'in' k" := (bind m (fun x => k))
  (at level 10, x name, m at level 100, k at level 200).

Definition analyzeWithML (this : t) (page_content : string)
    (interaction_history : list Interaction) : M Analysis :=
  if negb (mlEnabled this) then throw MLNotInitialized
  else
    let regexScore := inject_Z (analyzeRegex this page_content) in
    let matchedPatterns := analyze this page_content in
    let* scores :=
      match cnnModel this, lstmModel this, ensemble this with
      | Some cnn, Some lstm, Some ens =>
          let* contentVector :=
            call (CallPreprocessContent page_content)
                 (Ok (MLPreprocessor.preprocessContent (preprocessor this) page_content)) in
          let* cnnScore :=
            call (CallCnnPredict contentVector) (CNNModel.predict cnn contentVector) in
          let* lstmScore :=
            (if (0 <? length interaction_history)%nat then
               let* sequenceTensor :=
                 call (CallSequenceFromInteractions interaction_history)
                      (MLPreprocessor.sequenceFromInteractions
                         (preprocessor this) interaction_history) in
               call (CallLstmPredict sequenceTensor) (LSTMModel.predict lstm sequenceTensor)
             else ret 0%Q) in
          let* mlScore :=
            call (CallEnsemblePredict cnnScore lstmScore regexScore)
                 (EnsembleModel.predict ens cnnScore lstmScore regexScore) in
          ret (cnnScore, lstmScore, mlScore)
      | _, _, _ => ret (0%Q, 0%Q, 0%Q)
      end in
    let '(cnnScore, lstmScore, mlScore) := scores in
    let finalScore := ((regexScore * 0.40) + (mlScore * 100 * 0.60))%Q in
    let confidence := Math_min 1.0%Q (finalScore / 100)%Q in
    match ensemble this with
    | Some _ =>
        ret {| regex_score := regexScore;
               ml_score := (mlScore * 100)%Q;
               final_score := finalScore;
               confidence := confidence;
               verdict := EnsembleModel.getVerdict confidence;
               matched_patterns := matchedPatterns;
               cnn_score := (cnnScore * 100)%Q;
               lstm_score := (lstmScore * 100)%Q |}
    | None => throw TypeError   (* this.ensemble is null *)
    end.
(** The hunters that the public methods produce from a new one. *)
Inductive reachable : t -> Prop :=
| reachable_new : reachable constructor
| reachable_addPattern pattern this :
    reachable this -> reachable (addPattern pattern this)
| reachable_initializeML cnn lstm meta this :
    reachable this -> reachable (initializeML cnn lstm meta this)
| reachable_dispose this :
    reachable this -> reachable (dispose this).

(** The sum of the severity weights of a list of patterns. *)
Definition total_weight (ps : list IDeceptionHunterPattern) : Z :=
  foldr (fun pattern sum => severity_weight (severity pattern) + sum) 0 ps.



End Hunter.

End MLDeceptionHunter.

(** ** state-machine.ts: StateMachine *)

(** types.ts: IStateConfig.  [transitions] is the object used as a map
    from a state name to the array of permitted targets: a plain object,
    given by its own properties. *)
Module IStateConfig.
Record t : Type := mk {
  initialState : string;
  states : list string;
  transitions : gmap string (list string)
}.
End IStateConfig.

Module StateMachine.

(** *** The store

    State objects, data maps and arrays are JavaScript objects: the
    machine, its history and its callers hold references to them.  A
    reference is an index into the store of its kind; allocation
    appends. *)
Abbreviation loc := nat (only parsing).

(** types.ts: IState; [data] is a reference to a [Record<string, unknown>]. *)
Record IState : Type := mkIState {
  id : string;
  name : string;
  timestamp : Z;
  data : loc
}.

#[global] Instance IState_inhabited : Inhabited IState :=
  populate {| id := ""; name := ""; timestamp := 0; data := 0%nat |}.

#[global] Instance IState_eq_dec : EqDecision IState.
Proof. solve_decision. Defined.

Record Heap : Type := mkHeap {
  objects : list IState;
  records : list JS.record;
  arrays : list (list loc)
}.

Definition empty_heap : Heap := {| objects := []; records := []; arrays := [] |}.

Definition object_at (h : Heap) (l : loc) : IState := objects h !!! l.
Definition record_at (h : Heap) (l : loc) : JS.record := records h !!! l.
Definition array_at (h : Heap) (l : loc) : list loc := arrays h !!! l.

Definition alloc_object (s : IState) (h : Heap) : loc * Heap :=
  (length (objects h),
   {| objects := objects h ++ [s]; records := records h; arrays := arrays h |}).

Definition alloc_record (r : JS.record) (h : Heap) : loc * Heap :=
  (length (records h),
   {| objects := objects h; records := records h ++ [r]; arrays := arrays h |}).

Definition alloc_array (a : list loc) (h : Heap) : loc * Heap :=
  (length (arrays h),
   {| objects := objects h; records := records h; arrays := arrays h ++ [a] |}).

(** [a.push(e)] *)
Definition array_push (a e : loc) (h : Heap) : Heap :=
  {| objects := objects h; records := records h;
     arrays := <[a := array_at h a ++ [e]]> (arrays h) |}.

(** *** The machine object *)

Record t : Type := mk {
  current : loc;
  history : loc;
  states : list string;
  transitions : gmap string (list string)
}.

(** A call returns its result together with the machine and the store
    it leaves behind.  [generateId()] and [Date.now()] are supplied by
    the environment: each method that uses them takes their values
    [fresh_id] and [now]. *)
Definition outcome (A : Type) : Type := (result A * t * Heap)%type.

(** An optional object argument with the default value [{}]. *)
Definition default_record (arg : option loc) (h : Heap) : loc * Heap :=
  match arg with
  | Some d => (d, h)
  | None => alloc_record [] h
  end.

Definition constructor (config : IStateConfig.t) (fresh_id : string) (now : Z)
    (h : Heap) : t * Heap :=
  let '(hist, h) := alloc_array [] h in                  (* history = [] *)
  let '(d, h) := alloc_record [] h in                    (* data: {} *)
  let '(cur, h) :=
    alloc_object {| id := fresh_id; name := IStateConfig.initialState config;
                    timestamp := now; data := d |} h in
  let '(copy, h) := alloc_object (object_at h cur) h in  (* { ...this.current } *)
  let h := array_push hist copy h in
  ({| current := cur; history := hist;
      states := IStateConfig.states config;
      transitions := IStateConfig.transitions config |}, h).

Definition setState (name : string) (data : option loc) (fresh_id : string) (now : Z)
    (this : t) (h : Heap) : outcome loc :=
  let '(data, h) := default_record data h in
  if negb (bool_decide (name ∈ states this))
  then (Throw (InvalidStateName name), this, h)
  else
    let '(newState, h) :=
      alloc_object {| id := fresh_id; name := name; timestamp := now; data := data |} h in
    let this :=
      {| current := newState; history := history this;
         states := states this; transitions := transitions this |} in
    let '(copy, h) := alloc_object (object_at h newState) h in   (* { ...newState } *)
    let h := array_push (history this) copy h in
    (Ok newState, this, h).

(** this.transitions[from] || [], where [transitions] is a plain object
    whose own properties are the entries of the map: the own entry; else
    what Object.prototype holds under that name ([None] here), which is
    not falsy; else [undefined], and so the empty array. *)
Definition allowed_transitions (this : t) (from : string) : option (list string) :=
  match transitions this !! from with
  | Some allowed => Some allowed
  | None =>
      if bool_decide (from ∈ JS.Object_prototype_properties) then None else Some []
  end.

Definition transition (to : string) (metadata : option loc) (fresh_id : string) (now : Z)
    (this : t) (h : Heap) : outcome bool :=
  let '(metadata, h) := default_record metadata h in
  let from := name (object_at h (current this)) in
  match allowed_transitions this from with
  | None => (Throw TypeError, this, h)   (* allowedTransitions.includes is not a function *)
  | Some allowedTransitions =>
      if negb (bool_decide (to ∈ allowedTransitions))
      then (Throw (IllegalTransition from to), this, h)
      else
        match setState to (Some metadata) fresh_id now this h with
        | (Ok _, this, h) => (Ok true, this, h)
        | (Throw e, this, h) => (Throw e, this, h)
        end
  end.

(** getState(): { ...this.current } *)
Definition getState (this : t) (h : Heap) : loc * Heap :=
  alloc_object (object_at h (current this)) h.

(** getHistory(): [...this.history] *)
Definition getHistory (this : t) (h : Heap) : loc * Heap :=
  alloc_array (array_at h (history this)) h.

Definition reset (fresh_id : string) (now : Z) (this : t) (h : Heap) : t * Heap :=
  if (0 <? length (array_at h (history this)))%nat then
    let initialState := object_at h (array_at h (history this) !!! 0%nat) in
    let '(cur, h) :=
      alloc_object {| id := fresh_id; name := name initialState;
                      timestamp := now; data := data initialState |} h in
    let '(copy, h) := alloc_object (object_at h cur) h in
    let '(hist, h) := alloc_array [copy] h in
    ({| current := cur; history := hist;
        states := states this; transitions := transitions this |}, h)
  else (this, h).

(** *** What an observer of the machine sees *)

(** A State object read through the store, data map included. *)
Record Snapshot : Type := mkSnapshot {
  s_id : string;
  s_name : string;
  s_timestamp : Z;
  s_data : JS.record
}.

Definition snapshot (h : Heap) (l : loc) : Snapshot :=
  let s := object_at h l in
  {| s_id := id s; s_name := name s; s_timestamp := timestamp s;
     s_data := record_at h (data s) |}.

Definition current_snapshot (this : t) (h : Heap) : Snapshot :=
  snapshot h (current this).

Definition history_snapshots (this : t) (h : Heap) : list Snapshot :=
  snapshot h <$> array_at h (history this).

(** The State objects of the history, as the store holds them. *)
Definition history_objects (this : t) (h : Heap) : list IState :=
  object_at h <$> array_at h (history this).

(** *** Calls in sequence *)

Inductive Op : Type :=
| OpSetState (name : string) (data : option loc) (fresh_id : string) (now : Z)
| OpTransition (to : string) (metadata : option loc) (fresh_id : string) (now : Z)
| OpReset (fresh_id : string) (now : Z)
| OpGetState
| OpGetHistory.

(** One call; the flag tells whether it returned normally.  A caller
    that catches the exception goes on with the machine as the failed
    call left it. *)
Definition step (op : Op) (w : t * Heap) : bool * (t * Heap) :=
  let '(this, h) := w in
  match op with
  | OpSetState name data fresh_id now =>
      let '(r, this, h) := setState name data fresh_id now this h in
      (succeeds r, (this, h))
  | OpTransition to metadata fresh_id now =>
      let '(r, this, h) := transition to metadata fresh_id now this h in
      (succeeds r, (this, h))
  | OpReset fresh_id now => (true, reset fresh_id now this h)
  | OpGetState => (true, (this, snd (getState this h)))
  | OpGetHistory => (true, (this, snd (getHistory this h)))
  end.

Definition run (ops : list Op) (w : t * Heap) : t * Heap :=
  foldl (fun w op => snd (step op w)) w ops.

(** The number of [setState]/[transition] calls of [ops] that return
    normally when [ops] runs from [w]. *)
Definition is_change (op : Op) : bool :=
  match op with
  | OpSetState _ _ _ _ | OpTransition _ _ _ _ => true
  | _ => false
  end.

Fixpoint successful_changes (ops : list Op) (w : t * Heap) : nat :=
  match ops with
  | [] => 0
  | op :: ops' =>
      let '(ok, w') := step op w in
      ((if is_change op && ok then 1 else 0) + successful_changes ops' w')%nat
  end.

Definition is_reset (op : Op) : bool :=
  match op with OpReset _ _ => true | _ => false end.

(** *** What a caller can do to an object it holds a reference to *)

Inductive Mutation : Type :=
| WriteObject (l : loc) (s : IState)        (* assign fields of a State object *)
| WriteRecord (l : loc) (r : JS.record)     (* add, change or delete properties *)
| WriteArray (l : loc) (a : list loc).      (* push, pop, splice, a[i] = e *)

Definition mutate (m : Mutation) (h : Heap) : Heap :=
  match m with
  | WriteObject l s =>
      {| objects := <[l := s]> (objects h); records := records h; arrays := arrays h |}
  | WriteRecord l r =>
      {| objects := objects h; records := <[l := r]> (records h); arrays := arrays h |}
  | WriteArray l a =>
      {| objects := objects h; records := records h; arrays := <[l := a]> (arrays h) |}
  end.

(** A store that only gained objects. *)
Definition extends (h h' : Heap) : Prop :=
  exists new_objects new_records new_arrays,
    objects h' = objects h ++ new_objects /\
    records h' = records h ++ new_records /\
    arrays h' = arrays h ++ new_arrays.

(** *** The worlds that the methods produce

    What holds of the machine and the store after the constructor and
    any number of calls, for the configuration [config]. *)
Record invariant (config : IStateConfig.t) (this : t) (h : Heap) : Prop := mkInvariant {
  inv_states : states this = IStateConfig.states config;
  inv_transitions : transitions this = IStateConfig.transitions config;
  inv_current : (current this < length (objects h))%nat;
  inv_history : (history this < length (arrays h))%nat;
  inv_entries : Forall (fun l => (l < length (objects h))%nat) (array_at h (history this));
  inv_first :
    exists first rest,
      array_at h (history this) = first :: rest /\
      name (object_at h first) = IStateConfig.initialState config /\
      (data (object_at h first) < length (records h))%nat /\
      record_at h (data (object_at h first)) = [];
  inv_name :
    IStateConfig.initialState config ∈ IStateConfig.states config ->
    name (object_at h (current this)) ∈ IStateConfig.states config
}.

End StateMachine.

(** ** A small RegExp engine

    An implementation of [RegExpEngine] for the rules the hunters ship
    with: an alternation of literal strings, with the flag [i].  Like
    ECMAScript it rejects a repeated or unknown flag and the source "(";
    it also rejects every other source that uses a metacharacter, which
    ECMAScript may accept.  It is used to run the model on concrete
    inputs; no theorem depends on it. *)
Module LiteralEngine.

Record regexp : Type := mkRegexp {
  alternatives : list string;
  ignoreCase : bool
}.

Definition is_meta (c : ascii) : bool :=
  RegexLiteral.in_class "\^$.*+?()[]{}" c.

Fixpoint valid_flags (flags : string) : bool :=
  match flags with
  | EmptyString => true
  | String c flags' =>
      RegexLiteral.in_class "dgimsuvy" c
      && negb (RegexLiteral.in_class flags' c)
      && valid_flags flags'
  end.

(** Split at each '|'. *)
Fixpoint split_bar (s : string) : list string :=
  match s with
  | EmptyString => [EmptyString]
  | String c s' =>
      if Ascii.eqb c "|" then EmptyString :: split_bar s'
      else match split_bar s' with
           | [] => [String c EmptyString]
           | a :: l => String c a :: l
           end
  end.

Definition compile (source flags : string) : option regexp :=
  if RegexLiteral.forallb_string (fun c => negb (is_meta c)) source && valid_flags flags
  then Some {| alternatives := split_bar source;
               ignoreCase := RegexLiteral.in_class flags "i" |}
  else None.

Definition occurs_in (needle hay : string) : bool :=
  match String.index 0 needle hay with Some _ => true | None => false end.

Definition test (re : regexp) (s : string) : bool :=
  let fold := if ignoreCase re then toLowerCase else (fun s => s) in
  existsb (fun alt => occurs_in (fold alt) (fold s)) (alternatives re).

Definition engine : RegExpEngine :=
  {| RegExp := regexp; RegExp_new := compile; RegExp_test := test |}.

End LiteralEngine.

(** ** A constant ML runtime

    An implementation of [MLRuntime] whose networks answer with the
    probability they carry, whose tokenizer finds no token, and whose
    [tensor2d] raises on a row that holds a value other than a number.
    It is used to run the model on concrete inputs; no theorem depends
    on it. *)
Module ConstantRuntime.

Definition number_of (f : feature) : option number :=
  match f with FNumber x => Some x | FInherited _ => None end.

Definition strict_tensor2d (rows : list (list feature)) (n m : Z) : result (list (list number)) :=
  match mapM (mapM number_of) rows with
  | Some tensor => Ok tensor
  | None => Throw TensorFlowError
  end.

Lemma strict_tensor2d_numbers (rows : list (list number)) (n m : Z) :
  Z.of_nat (length rows) = n ->
  Forall (fun row => Z.of_nat (length row) = m) rows ->
  strict_tensor2d (fmap (M:=list) (fmap (M:=list) FNumber) rows) n m = Ok rows.
Proof.
  intros _ _. unfold strict_tensor2d.
  assert (Hrow : forall row : list number, mapM number_of (FNumber <$> row) = Some row).
  { intros row. apply mapM_Some. induction row; simpl; constructor; done. }
  assert (mapM (mapM number_of) (fmap (M:=list) (fmap (M:=list) FNumber) rows) = Some rows)
    as ->; [| done].
  apply mapM_Some. induction rows; simpl; constructor; [apply Hrow | done].
Qed.

Definition runtime : MLRuntime :=
  {| html_tokens := fun _ => [];
     CNNNet := number; LSTMNet := number; MetaNet := number;
     cnn_forward := fun net _ => net;
     lstm_forward := fun net _ => net;
     meta_forward := fun net _ _ _ => net;
     tensor2d := strict_tensor2d;
     tensor2d_numbers := strict_tensor2d_numbers |}.

End ConstantRuntime.

(** ** A number format

    An implementation of [JS.NumberFormat] that writes a number as the
    quotient of two integers.  It is used to run the model on concrete
    inputs; no theorem depends on it. *)
Module QuotientFormat.

Definition toString (q : Qc) : string :=
  String.append (NilZero.string_of_int (Z.to_int (Qnum q)))
    (String.append "/" (NilZero.string_of_uint (Pos.to_uint (Qden q)))).

Definition format : JS.NumberFormat := {| JS.Number_toString := toString |}.

End QuotientFormat.

(** ** Inputs of the examples *)

Definition snapshot_url_first : JS.record :=
  [("url", JS.JStr "a"); ("title", JS.JStr "t")]%string.

Definition snapshot_title_first : JS.record :=
  [("title", JS.JStr "t"); ("url", JS.JStr "a")]%string.

(** What verifyClick returns for an unchanged snapshot, and for the
    snapshot with its properties in another order. *)
Definition click_unchanged : DeceptionHunter.IClickVerification :=
  {| DeceptionHunter.before_state := snapshot_url_first;
     DeceptionHunter.after_state := snapshot_url_first;
     DeceptionHunter.verified := false;
     DeceptionHunter.confidence := 0.0%Q |}.

Definition click_reordered : DeceptionHunter.IClickVerification :=
  {| DeceptionHunter.before_state := snapshot_url_first;
     DeceptionHunter.after_state := snapshot_title_first;
     DeceptionHunter.verified := true;
     DeceptionHunter.confidence := 1.0%Q |}.

(** Snapshots whose url is NaN, that hold a BigInt, that refer to
    themselves, and that hold nested data. *)
Definition snapshot_nan : JS.record := [("url", JS.JNaN)]%string.

Definition snapshot_bigint : JS.record :=
  [("url", JS.JStr "a"); ("count", JS.JBigInt 1)]%string.

Definition snapshot_cyclic : JS.record :=
  [("url", JS.JStr "a"); ("self", JS.JCyclic 0)]%string.

Definition snapshot_nested : JS.record :=
  [("url", JS.JStr "a");
   ("size", JS.JArray 1 [JS.JNum 800; JS.JFrac (Q2Qc 0.5); JS.JUndefined]);
   ("form", JS.JObject 2 [("dirty", JS.JBool false); ("token", JS.JUndefined)])]%string.

(** A hunter made ready with constant networks, and the markup and the
    click of the test suite. *)
Definition ready_hunter : @MLDeceptionHunter.t ConstantRuntime.runtime :=
  @MLDeceptionHunter.initializeML ConstantRuntime.runtime 0.5%Q 0.5%Q 0.85%Q
    (@MLDeceptionHunter.constructor ConstantRuntime.runtime).

Definition captcha_button : string := "<button id=captcha>Verify Human</button>".

Definition one_click : list Interaction :=
  [mkInteraction "CLICK" 0%Q (Some 100%Q) (Some 100%Q) None].


(** Three configurations: the one of the test suite, one whose
    transition table names a state that is not configured, and one whose
    initial state is not configured. *)
Definition config_click : IStateConfig.t :=
  {| IStateConfig.initialState := "IDLE";
     IStateConfig.states := ["IDLE"; "PENDING"; "VERIFIED"; "FAILED"];
     IStateConfig.transitions :=
       {[ "IDLE" := ["PENDING"]; "PENDING" := ["VERIFIED"; "FAILED"] ]} |}%string.

Definition config_ghost_target : IStateConfig.t :=
  {| IStateConfig.initialState := "IDLE";
     IStateConfig.states := ["IDLE"];
     IStateConfig.transitions := {[ "IDLE" := ["GHOST"] ]} |}%string.

Definition config_ghost_initial : IStateConfig.t :=
  {| IStateConfig.initialState := "GHOST";
     IStateConfig.states := ["IDLE"];
     IStateConfig.transitions := ∅ |}%string.

(** A configuration whose one state is named like a property of
    Object.prototype. *)
Definition config_constructor : IStateConfig.t :=
  {| IStateConfig.initialState := "constructor";
     IStateConfig.states := ["constructor"];
     IStateConfig.transitions := ∅ |}%string.

(** The machines built from them in an empty store. *)
Definition world_click : StateMachine.t * StateMachine.Heap :=
  StateMachine.constructor config_click "s0" 0 StateMachine.empty_heap.

Definition world_ghost_target : StateMachine.t * StateMachine.Heap :=
  StateMachine.constructor config_ghost_target "s0" 0 StateMachine.empty_heap.

Definition world_ghost_initial : StateMachine.t * StateMachine.Heap :=
  StateMachine.constructor config_ghost_initial "s0" 0 StateMachine.empty_heap.

Definition world_constructor : StateMachine.t * StateMachine.Heap :=
  StateMachine.constructor config_constructor "s0" 0 StateMachine.empty_heap.

(** A transition followed by a reset. *)
Definition click_then_reset : list StateMachine.Op :=
  [ StateMachine.OpTransition "PENDING" None "s1" 1;
    StateMachine.OpReset "s2" 2 ]%string.

(** A click cycle with a refused call in the middle. *)
Definition click_cycle : list StateMachine.Op :=
  [ StateMachine.OpTransition "PENDING" None "s1" 1;
    StateMachine.OpSetState "BOGUS" None "s2" 2;
    StateMachine.OpGetState;
    StateMachine.OpTransition "VERIFIED" None "s3" 3 ]%string.

(* ===================================================================== *)
(** * Part II: the properties                                             *)
(* ===================================================================== *)

(** ** Numbers *)

Lemma Qltb_lt (a b : Q) : Qltb a b = true <-> (a < b)%Q.
Proof.
  unfold Qltb. rewrite negb_true_iff.
  destruct (Qle_bool b a) eqn:E.
  - apply Qle_bool_iff in E. split; [discriminate | intros H; lra].
  - split; [intros _ | reflexivity].
    apply Qnot_le_lt. intros H. apply Qle_bool_iff in H. congruence.
Qed.

Lemma Qltb_ge (a b : Q) : Qltb a b = false <-> (b <= a)%Q.
Proof.
  unfold Qltb. rewrite negb_false_iff. apply Qle_bool_iff.
Qed.

Lemma Math_min_Qmin (a b : Q) : (Math_min a b == Qmin a b)%Q.
Proof.
  unfold Math_min. destruct (Qle_bool a b) eqn:E.
  - apply Qle_bool_iff in E. symmetry. apply Q.min_l. exact E.
  - assert (b <= a)%Q.
    { apply Qlt_le_weak, Qnot_le_lt. intros H. apply Qle_bool_iff in H. congruence. }
    symmetry. apply Q.min_r. assumption.
Qed.

Lemma Math_min_one (a : Q) : (Math_min 1.0 a == Qmin 1 a)%Q.
Proof.
  rewrite Math_min_Qmin.
  destruct (Q.min_spec 1.0 a) as [[H E] | [H E]],
           (Q.min_spec 1 a) as [[K F] | [K F]]; lra.
Qed.

(** ** EnsembleModel *)

Section EnsembleModel_properties.
Import EnsembleModel.

(** C1, the claim as stated fails: the function does not rescale its
    second argument.  For regexScore = 0 and mlProbability = 1 it returns
    0.6, while the claimed value is 60; the two are 59.4 apart. *)
Lemma calculateHybridScore_not_rescaled :
  (0 <= 0 <= 100)%Q /\ (0 <= 1 <= 1)%Q /\
  (calculateHybridScore 0 1 == 0.6)%Q /\
  (0 * 0.40 + 1 * 100 * 0.60 == 60)%Q /\
  ~ (calculateHybridScore 0 1 == 0 * 0.40 + 1 * 100 * 0.60)%Q.
Proof.
  unfold calculateHybridScore. repeat split; lra.
Qed.

(** C1, amended: calculateHybridScore(regexScore, mlScore) returns
    regexScore*0.40 + mlScore*0.60, with the second argument taken on
    the same 0-100 scale as the first; the value
    regexScore*0.40 + mlProbability*100*0.60 is what it returns for the
    rescaled argument mlProbability*100. *)
Theorem calculateHybridScore_weights (regexScore mlScore mlProbability : number) :
  (calculateHybridScore regexScore mlScore == regexScore * 0.40 + mlScore * 0.60)%Q /\
  (calculateHybridScore regexScore (mlProbability * 100)
     == regexScore * 0.40 + mlProbability * 100 * 0.60)%Q.
Proof.
  unfold calculateHybridScore. split; lra.
Qed.

(** Scenario E: regexScore = 75 and an ML score of 85 give 81. *)
Example calculateHybridScore_scenario_E :
  (calculateHybridScore 75 85 == 81)%Q.
Proof. unfold calculateHybridScore. lra. Qed.

(** C9: getVerdict is SAFE below 0.2, LOW_RISK from 0.2 to below 0.4,
    MEDIUM from 0.4 to below 0.7 and HIGH_THREAT from 0.7 on; hence it
    is non-decreasing in the score for the ordering
    SAFE < LOW_RISK < MEDIUM < HIGH_THREAT. *)
Theorem getVerdict_step_function :
  (forall score : number,
      ((score < 0.2)%Q -> getVerdict score = SAFE) /\
      ((0.2 <= score)%Q -> (score < 0.4)%Q -> getVerdict score = LOW_RISK) /\
      ((0.4 <= score)%Q -> (score < 0.7)%Q -> getVerdict score = MEDIUM) /\
      ((0.7 <= score)%Q -> getVerdict score = HIGH_THREAT)) /\
  (forall s1 s2 : number,
      (s1 <= s2)%Q -> (rank (getVerdict s1) <= rank (getVerdict s2))%nat).
Proof.
  assert (cases : forall score : number,
    ((score < 0.2)%Q /\ getVerdict score = SAFE) \/
    ((0.2 <= score)%Q /\ (score < 0.4)%Q /\ getVerdict score = LOW_RISK) \/
    ((0.4 <= score)%Q /\ (score < 0.7)%Q /\ getVerdict score = MEDIUM) \/
    ((0.7 <= score)%Q /\ getVerdict score = HIGH_THREAT)).
  { intros score. unfold getVerdict.
    destruct (Qltb score 0.2) eqn:E1.
    { left. split; [by apply Qltb_lt | done]. }
    destruct (Qltb score 0.4) eqn:E2.
    { right; left. split; [by apply Qltb_ge | split; [by apply Qltb_lt | done]]. }
    destruct (Qltb score 0.7) eqn:E3.
    { right; right; left.
      split; [by apply Qltb_ge | split; [by apply Qltb_lt | done]]. }
    right; right; right. split; [by apply Qltb_ge | done]. }
  split.
  - intros score.
    destruct (cases score) as [[H ->] | [(H1 & H2 & ->) | [(H1 & H2 & ->) | [H ->]]]];
      repeat split; intros; try reflexivity; exfalso; lra.
  - intros s1 s2 Hle.
    destruct (cases s1) as [[H ->] | [(H1 & H2 & ->) | [(H1 & H2 & ->) | [H ->]]]];
    destruct (cases s2) as [[K ->] | [(K1 & K2 & ->) | [(K1 & K2 & ->) | [K ->]]]];
      simpl; try lia; exfalso; lra.
Qed.

Lemma getVerdict_step_function_witness :
  getVerdict 0.15%Q = SAFE /\ getVerdict 0.3%Q = LOW_RISK /\
  getVerdict 0.55%Q = MEDIUM /\ getVerdict 0.85%Q = HIGH_THREAT /\
  (rank (getVerdict 0.3%Q) <= rank (getVerdict 0.85%Q))%nat.
Proof.
  destruct getVerdict_step_function as [bands mono].
  split; [| split; [| split; [| split]]].
  - apply (proj1 (bands 0.15%Q)). reflexivity.
  - apply (proj1 (proj2 (bands 0.3%Q))); [discriminate | reflexivity].
  - apply (proj1 (proj2 (proj2 (bands 0.55%Q)))); [discriminate | reflexivity].
  - apply (proj2 (proj2 (proj2 (bands 0.85%Q)))). discriminate.
  - apply (mono 0.3%Q 0.85%Q). discriminate.
Defined.

End EnsembleModel_properties.

(** ** DeceptionHunter.analyze and MLDeceptionHunter.analyze *)

Section analyze_properties.
Context {engine : RegExpEngine}.

(** While no rule raises, the loop of [DeceptionHunter.analyze] is a
    filter that keeps the registration order. *)
Lemma DeceptionHunter_analyze_loop_filter ps page_content matched :
  Forall (fun p => DeceptionHunter.rule_throws p = false) ps ->
  DeceptionHunter.analyze_loop ps page_content matched =
    Ok (matched ++ filter (fun p => DeceptionHunter.rule_matches p page_content = true) ps).
Proof.
  intros Hok. revert matched.
  induction Hok as [| p ps Hp _ IH]; intros matched; simpl.
  - by rewrite app_nil_r.
  - unfold DeceptionHunter.rule_throws in Hp.
    destruct (RegexLiteral.match_literal false "gimsuy" (regex p))
      as [[source flags] |] eqn:Hlit.
    + destruct (RegExp_new source flags) as [re |] eqn:Hnew; [| discriminate].
      destruct (RegExp_test re page_content) eqn:Htest; rewrite IH.
      * rewrite filter_cons_True; [by rewrite <- app_assoc |].
        unfold DeceptionHunter.rule_matches. by rewrite Hlit, Hnew.
      * rewrite filter_cons_False; [done |].
        unfold DeceptionHunter.rule_matches. rewrite Hlit, Hnew, Htest. done.
    + rewrite IH, filter_cons_False; [done |].
      unfold DeceptionHunter.rule_matches. by rewrite Hlit.
Qed.

(** A rule that raises ends the loop with the exception, whatever was
    matched before it and whatever is registered around it. *)
Lemma DeceptionHunter_analyze_loop_throws ps1 bad ps2 page_content matched :
  DeceptionHunter.rule_throws bad = true ->
  DeceptionHunter.analyze_loop (ps1 ++ bad :: ps2) page_content matched = Throw SyntaxError.
Proof.
  intros Hbad. revert matched.
  induction ps1 as [| p ps1 IH]; intros matched; simpl.
  - unfold DeceptionHunter.rule_throws in Hbad.
    destruct (RegexLiteral.match_literal false "gimsuy" (regex bad)) as [[source flags] |];
      [| discriminate].
    by destruct (RegExp_new source flags).
  - destruct (RegexLiteral.match_literal false "gimsuy" (regex p)) as [[source flags] |];
      [| apply IH].
    destruct (RegExp_new source flags) as [re |]; [| reflexivity].
    destruct (RegExp_test re page_content); apply IH.
Qed.

(** C2, on DeceptionHunter.analyze: a registered pattern whose rule does
    not compile is not skipped.  The exception of [new RegExp] ends the
    scan: no pattern is returned, neither those matched before the bad
    rule nor those registered after it. *)
Theorem DeceptionHunter_analyze_bad_rule_aborts
    (ps1 ps2 : list IDeceptionHunterPattern) (bad : IDeceptionHunterPattern)
    (source flags page_content : string) :
  RegexLiteral.match_literal false "gimsuy" (regex bad) = Some (source, flags) ->
  RegExp_new source flags = None ->
  DeceptionHunter.analyze {| DeceptionHunter.patterns := ps1 ++ bad :: ps2 |} page_content
    = Throw SyntaxError.
Proof.
  intros Hlit Hnew. unfold DeceptionHunter.analyze. simpl.
  apply DeceptionHunter_analyze_loop_throws.
  unfold DeceptionHunter.rule_throws. by rewrite Hlit, Hnew.
Qed.

(** With rules that all compile, [DeceptionHunter.analyze] returns the
    matching patterns in registration order. *)
Lemma DeceptionHunter_analyze_registration_order this page_content :
  Forall (fun p => DeceptionHunter.rule_throws p = false) (DeceptionHunter.patterns this) ->
  DeceptionHunter.analyze this page_content =
    Ok (filter (fun p => DeceptionHunter.rule_matches p page_content = true)
               (DeceptionHunter.patterns this)).
Proof.
  intros Hok. unfold DeceptionHunter.analyze.
  by rewrite DeceptionHunter_analyze_loop_filter.
Qed.

Context {rt : MLRuntime}.

Lemma MLDeceptionHunter_analyze_loop_filter ps page_content matched :
  MLDeceptionHunter.analyze_loop ps page_content matched =
    matched ++ filter (fun p => MLDeceptionHunter.rule_matches p page_content = true) ps.
Proof.
  revert matched. induction ps as [| p ps IH]; intros matched; simpl.
  - by rewrite app_nil_r.
  - destruct (MLDeceptionHunter.rule_matches p page_content) eqn:Hp; rewrite IH.
    + rewrite filter_cons_True by done. by rewrite <- app_assoc.
    + rewrite filter_cons_False; [done | by rewrite Hp].
Qed.

(** [MLDeceptionHunter.analyze] never raises and returns the matching
    patterns in registration order. *)
Lemma MLDeceptionHunter_analyze_registration_order this page_content :
  MLDeceptionHunter.analyze this page_content =
    filter (fun p => MLDeceptionHunter.rule_matches p page_content = true)
           (MLDeceptionHunter.baseHunterPatterns this).
Proof. unfold MLDeceptionHunter.analyze. by rewrite MLDeceptionHunter_analyze_loop_filter. Qed.

(** Isolation, which the [try] block of [MLDeceptionHunter.analyze]
    gives: a rule that does not compile is skipped, and the result is
    the one the remaining patterns give without it. *)
Lemma MLDeceptionHunter_analyze_isolation ps1 bad ps2 page_content :
  MLDeceptionHunter.rule_throws bad = true ->
  MLDeceptionHunter.analyze_loop (ps1 ++ bad :: ps2) page_content [] =
  MLDeceptionHunter.analyze_loop (ps1 ++ ps2) page_content [].
Proof.
  intros Hbad. rewrite !MLDeceptionHunter_analyze_loop_filter. simpl.
  rewrite !filter_app. f_equal. rewrite filter_cons_False; [done |].
  cut (MLDeceptionHunter.rule_matches bad page_content = false); [by intros -> |].
  unfold MLDeceptionHunter.rule_throws in Hbad. unfold MLDeceptionHunter.rule_matches.
  destruct (RegexLiteral.match_literal true "gimuy" (regex bad)) as [[source flags] |];
    [| done].
  by destruct (RegExp_new source flags).
Qed.

End analyze_properties.

(** The hunter as constructed, with one more pattern whose rule "/(/"
    does not compile, scanning the markup of scenario A. *)
Lemma DeceptionHunter_analyze_bad_rule_aborts_witness :
  @DeceptionHunter.analyze LiteralEngine.engine
    (DeceptionHunter.addPattern (mkPattern "BAD" "/(/" low) DeceptionHunter.constructor)
    "<div class=recaptcha>Verify</div>" = Throw SyntaxError.
Proof.
  apply (@DeceptionHunter_analyze_bad_rule_aborts LiteralEngine.engine
           (DeceptionHunter.patterns DeceptionHunter.constructor) []
           (mkPattern "BAD" "/(/" low) "(" "").
  - reflexivity.
  - reflexivity.
Defined.

(** Scenario A: without the bad rule the same scan reports CAPTCHA. *)
Example DeceptionHunter_analyze_scenario_A :
  @DeceptionHunter.analyze LiteralEngine.engine DeceptionHunter.constructor
    "<div class=recaptcha>Verify</div>"
  = Ok [mkPattern "CAPTCHA" "/captcha|recaptcha|challenge|verification/i" high].
Proof. reflexivity. Qed.

(** ** DeceptionHunter.verifyClick *)

Section value_properties.
Context {format : JS.NumberFormat}.
Import JS.

Lemma strict_eq_sym (a b : jsval) : strict_eq a b = strict_eq b a.
Proof.
  assert (HQ : forall x y : Qc, bool_decide (x = y) = bool_decide (y = x))
    by (intros; apply bool_decide_ext; split; congruence).
  destruct a, b; cbn; try reflexivity;
    auto using Nat.eqb_sym, String.eqb_sym, Z.eqb_sym.
  all: match goal with
       | |- Bool.eqb ?x ?y = Bool.eqb ?y ?x => by destruct x, y
       end.
Qed.

(** Only [NaN] differs from itself. *)
Lemma strict_eq_refl (v : jsval) : strict_eq v v = true <-> v <> JNaN.
Proof.
  destruct v; cbn; try (split; [discriminate | reflexivity]);
    try (split; [intros _; discriminate | intros _]).
  - by destruct b.
  - by apply bool_decide_eq_true_2.
  - apply String.eqb_refl.
  - by apply bool_decide_eq_true_2.
  - split; [discriminate | congruence].
  - by destruct negative.
  - apply Z.eqb_refl.
  - apply Nat.eqb_refl.
  - apply Nat.eqb_refl.
  - apply Nat.eqb_refl.
Qed.

Lemma serialize_value_object id props :
  serialize_value (JObject id props) =
    match serialize_members props with
    | Throw e => Throw e
    | Ok l => Ok (Some (braces l))
    end.
Proof. reflexivity. Qed.

Lemma serialize_value_array id elems :
  serialize_value (JArray id elems) =
    match serialize_elements elems with
    | Throw e => Throw e
    | Ok l => Ok (Some (brackets l))
    end.
Proof. reflexivity. Qed.

Lemma serializable_object id props :
  serializable (JObject id props) = serializable_record props.
Proof.
  unfold serializable_record. induction props as [| [k v] props IH]; [done |].
  cbn [forallb snd]. rewrite <- IH. reflexivity.
Qed.

Lemma serializable_array id elems :
  serializable (JArray id elems) = forallb serializable elems.
Proof.
  induction elems as [| v elems IH]; [done |].
  cbn [forallb]. rewrite <- IH. reflexivity.
Qed.

Lemma serialize_members_outcome props :
  Forall (fun kv => stringify_outcome (serialize_value (snd kv)) (serializable (snd kv))) props ->
  stringify_outcome (serialize_members props) (serializable_record props).
Proof.
  unfold serializable_record.
  induction 1 as [| [k v] props Hv _ IH]; [done |].
  cbn [serialize_members forallb snd] in *.
  destruct (serialize_value v) as [sv | e]; cbn in Hv.
  - rewrite Hv. cbn [andb].
    destruct (serialize_members props) as [l | e]; cbn in *; done.
  - destruct Hv as [-> ->]. done.
Qed.

Lemma serialize_elements_outcome elems :
  Forall (fun v => stringify_outcome (serialize_value v) (serializable v)) elems ->
  stringify_outcome (serialize_elements elems) (forallb serializable elems).
Proof.
  induction 1 as [| v elems Hv _ IH]; [done |].
  cbn [serialize_elements forallb] in *.
  destruct (serialize_value v) as [sv | e]; cbn in Hv.
  - rewrite Hv. cbn [andb].
    destruct (serialize_elements elems) as [l | e]; cbn in *; done.
  - destruct Hv as [-> ->]. done.
Qed.

Lemma serialize_value_outcome (v : jsval) :
  stringify_outcome (serialize_value v) (serializable v).
Proof.
  induction v using jsval_nested_ind; try done.
  - by destruct b.
  - rewrite serialize_value_object, serializable_object.
    pose proof (serialize_members_outcome props H) as Hm.
    destruct (serialize_members props); done.
  - rewrite serialize_value_array, serializable_array.
    pose proof (serialize_elements_outcome elems H) as Hm.
    destruct (serialize_elements elems); done.
Qed.

Lemma JSON_stringify_outcome (o : record) :
  stringify_outcome (JSON_stringify o) (serializable_record o).
Proof.
  unfold JSON_stringify.
  pose proof (serialize_members_outcome o) as Hm.
  destruct (serialize_members o); apply Hm, Forall_forall; intros; apply serialize_value_outcome.
Qed.

End value_properties.

Section verifyClick_properties.
Context {format : JS.NumberFormat}.
Import DeceptionHunter.

Lemma snapshots_deep_equal : JS.deep_equal snapshot_url_first snapshot_title_first.
Proof.
  intros k. unfold snapshot_url_first, snapshot_title_first. simpl.
  destruct (String.eqb k "url") eqn:E1; destruct (String.eqb k "title") eqn:E2;
    try reflexivity.
  apply String.eqb_eq in E1, E2. congruence.
Qed.

(** What verifyClick returns when nothing raises. *)
Lemma verifyClick_returns (before after : JS.record) (beforeStr afterStr : string) :
  JS.JSON_stringify before = Ok beforeStr ->
  JS.JSON_stringify after = Ok afterStr ->
  (JS.strict_neq (JS.get before "url") (JS.get after "url") = true ->
     JS.ToString_returns (JS.get before "url") = true /\
     JS.ToString_returns (JS.get after "url") = true) ->
  verifyClick before after =
    let verified :=
      JS.strict_neq (JS.get before "url") (JS.get after "url")
      || negb (String.eqb beforeStr afterStr) in
    Ok {| before_state := before; after_state := after; verified := verified;
          confidence := if verified then 1.0%Q else 0.0%Q |}.
Proof.
  intros Hb Ha Hurl. unfold verifyClick. rewrite Hb, Ha.
  destruct (JS.strict_neq (JS.get before "url") (JS.get after "url")).
  - destruct (Hurl eq_refl) as [-> ->]. cbn. by rewrite andb_false_r.
  - cbn. rewrite andb_true_r. by destruct (String.eqb beforeStr afterStr).
Qed.

(** What makes verifyClick raise. *)
Lemma verifyClick_raises (before after : JS.record) (e : Error) :
  verifyClick before after = Throw e ->
  e = TypeError /\
  (JS.serializable_record before = false \/
   JS.serializable_record after = false \/
   JS.strict_neq (JS.get before "url") (JS.get after "url") = true /\
   (JS.ToString_returns (JS.get before "url") = false \/
    JS.ToString_returns (JS.get after "url") = false)).
Proof.
  unfold verifyClick.
  pose proof (JSON_stringify_outcome before) as Hb.
  pose proof (JSON_stringify_outcome after) as Ha.
  unfold JS.stringify_outcome in Ha, Hb.
  destruct (JS.strict_neq (JS.get before "url") (JS.get after "url")).
  - destruct (JS.ToString_returns (JS.get before "url")) eqn:Tb;
      [destruct (JS.ToString_returns (JS.get after "url")) eqn:Ta |]; cbn [andb].
    + destruct (JS.JSON_stringify before); [| destruct Hb as [-> Hb]; intros [= <-]; auto].
      destruct (JS.JSON_stringify after); [done |].
      destruct Ha as [-> Ha]; intros [= <-]; auto.
    + intros [= <-]. split; [done |]. right. right. auto.
    + intros [= <-]. split; [done |]. right. right. auto.
  - destruct (JS.JSON_stringify before); [| destruct Hb as [-> Hb]; intros [= <-]; auto].
    destruct (JS.JSON_stringify after); [done |].
    destruct Ha as [-> Ha]; intros [= <-]; auto.
Qed.

(** verifyClick returns exactly when both snapshots can be serialized
    and, in case the url differs, both url values can be converted to
    strings. *)
Lemma verifyClick_succeeds (before after : JS.record) :
  succeeds (verifyClick before after) =
    JS.serializable_record before && JS.serializable_record after
    && (negb (JS.strict_neq (JS.get before "url") (JS.get after "url"))
        || JS.ToString_returns (JS.get before "url")
           && JS.ToString_returns (JS.get after "url")).
Proof.
  unfold verifyClick. cbv zeta.
  pose proof (JSON_stringify_outcome before) as Hb.
  pose proof (JSON_stringify_outcome after) as Ha.
  unfold JS.stringify_outcome in Ha, Hb.
  destruct (JS.strict_neq (JS.get before "url") (JS.get after "url")); cbn [negb orb];
    [destruct (JS.ToString_returns (JS.get before "url")),
              (JS.ToString_returns (JS.get after "url")); cbn [andb] |];
    rewrite ?andb_false_r, ?andb_true_r; try done;
    (destruct (JS.JSON_stringify before); [rewrite Hb | by destruct Hb as [_ ->]]);
    (destruct (JS.JSON_stringify after); [by rewrite Ha | by destruct Ha as [_ ->]]).
Qed.

End verifyClick_properties.

(** C7, the claim as stated fails on its last clause: two snapshots
    with the same properties and values, listed in a different order,
    are deep-equal, yet their serializations differ and the click
    counts as verified with confidence 1. *)
Lemma verifyClick_deep_equal_verified :
  JS.deep_equal snapshot_url_first snapshot_title_first /\
  JS.strict_neq (JS.get snapshot_url_first "url") (JS.get snapshot_title_first "url") = false /\
  exists r,
    @DeceptionHunter.verifyClick QuotientFormat.format
      snapshot_url_first snapshot_title_first = Ok r /\
    DeceptionHunter.verified r = true /\
    (DeceptionHunter.confidence r == 1)%Q.
Proof.
  split; [exact snapshots_deep_equal |].
  split; [reflexivity |].
  eexists. split; [reflexivity |]. split; reflexivity.
Qed.

Section verifyClick_claim.
Context {format : JS.NumberFormat}.
Import DeceptionHunter.

(** C7, amended: on snapshots of plain data, verifyClick raises only
    TypeError, and exactly when a snapshot holds a BigInt or a cycle
    (JSON.stringify) or when the url fields differ and one of them
    cannot be converted to a string.  Otherwise it returns: verified is
    true if the url fields differ under !== (objects by reference, NaN
    different from itself), else true if the serialized snapshots
    differ, else false; confidence is 1.0 when verified and 0.0
    otherwise.  JSON.stringify accepts a snapshot exactly when it holds
    no BigInt and no cycle.  In particular two identical snapshots (same
    properties, same values, same order) that JSON.stringify accepts
    give verified = false and confidence 0.0 unless their url is NaN, in
    which case they give verified = true. *)
Theorem verifyClick_spec (before after : JS.record) :
  let url_differs := JS.strict_neq (JS.get before "url") (JS.get after "url") in
  (forall e, verifyClick before after = Throw e -> e = TypeError) /\
  succeeds (verifyClick before after) =
    JS.serializable_record before && JS.serializable_record after
    && (negb url_differs
        || JS.ToString_returns (JS.get before "url")
           && JS.ToString_returns (JS.get after "url")) /\
  (succeeds (JS.JSON_stringify before) = JS.serializable_record before /\
   succeeds (JS.JSON_stringify after) = JS.serializable_record after) /\
  (forall beforeStr afterStr,
     JS.JSON_stringify before = Ok beforeStr ->
     JS.JSON_stringify after = Ok afterStr ->
     (url_differs = true ->
        JS.ToString_returns (JS.get before "url") = true /\
        JS.ToString_returns (JS.get after "url") = true) ->
     exists r,
       verifyClick before after = Ok r /\
       before_state r = before /\ after_state r = after /\
       (url_differs = true -> verified r = true) /\
       (url_differs = false -> beforeStr <> afterStr -> verified r = true) /\
       (url_differs = false -> beforeStr = afterStr -> verified r = false) /\
       (confidence r == if verified r then 1.0 else 0.0)%Q) /\
  (before = after ->
   JS.serializable_record before = true ->
   exists r,
     verifyClick before after = Ok r /\
     (JS.get before "url" <> JS.JNaN -> verified r = false /\ (confidence r == 0.0)%Q) /\
     (JS.get before "url" = JS.JNaN -> verified r = true /\ (confidence r == 1.0)%Q)).
Proof.
  intros url_differs.
  split; [intros e He; by apply verifyClick_raises in He as [-> _] |].
  split; [apply verifyClick_succeeds |].
  split.
  { pose proof (JSON_stringify_outcome before) as Hb.
    pose proof (JSON_stringify_outcome after) as Ha.
    destruct (JS.JSON_stringify before), (JS.JSON_stringify after); cbn in *;
      intuition congruence. }
  split.
  - intros beforeStr afterStr Hb Ha Hurl.
    rewrite (verifyClick_returns before after beforeStr afterStr Hb Ha Hurl).
    cbv zeta. fold url_differs. eexists. split; [reflexivity |].
    cbn [before_state after_state verified confidence].
    split; [done |]. split; [done |].
    split; [by intros -> |].
    split; [intros -> Hne; apply String.eqb_neq in Hne; by rewrite Hne |].
    split; [intros -> ->; by rewrite String.eqb_refl |].
    reflexivity.
  - intros <- Hser.
    pose proof (JSON_stringify_outcome before) as Hb.
    destruct (JS.JSON_stringify before) as [beforeStr | e] eqn:Hstr;
      [| destruct Hb as [_ Hb]; congruence].
    pose proof (strict_eq_refl (JS.get before "url")) as Hrefl.
    assert (Hto : JS.strict_neq (JS.get before "url") (JS.get before "url") = true ->
                  JS.ToString_returns (JS.get before "url") = true /\
                  JS.ToString_returns (JS.get before "url") = true).
    { unfold JS.strict_neq. intros Hne%negb_true_iff.
      destruct (JS.get before "url"); try done;
        rewrite (proj2 Hrefl) in Hne by discriminate; discriminate. }
    rewrite (verifyClick_returns before before beforeStr beforeStr Hstr Hstr Hto).
    cbv zeta. eexists. split; [reflexivity |].
    cbn [verified confidence]. rewrite String.eqb_refl, orb_false_r.
    unfold JS.strict_neq. split.
    + intros Hnan. apply Hrefl in Hnan. by rewrite Hnan.
    + intros ->. done.
Qed.

End verifyClick_claim.

(** Scenarios B and C of the specification; a url that is NaN; a
    snapshot that holds a BigInt, and one that refers to itself. *)
Lemma verifyClick_spec_witness :
  (exists r,
     @DeceptionHunter.verifyClick QuotientFormat.format
       [("url", JS.JStr "a")]%string [("url", JS.JStr "b")]%string = Ok r /\
     DeceptionHunter.verified r = true) /\
  (exists r,
     @DeceptionHunter.verifyClick QuotientFormat.format
       snapshot_nested snapshot_nested = Ok r /\
     DeceptionHunter.verified r = false /\ (DeceptionHunter.confidence r == 0.0)%Q) /\
  (exists r,
     @DeceptionHunter.verifyClick QuotientFormat.format snapshot_nan snapshot_nan = Ok r /\
     DeceptionHunter.verified r = true /\ (DeceptionHunter.confidence r == 1.0)%Q) /\
  succeeds (@DeceptionHunter.verifyClick QuotientFormat.format
              snapshot_url_first snapshot_bigint) = false /\
  succeeds (@DeceptionHunter.verifyClick QuotientFormat.format
              snapshot_cyclic snapshot_url_first) = false.
Proof.
  split; [| split; [| split]].
  - destruct (proj1 (proj2 (proj2 (proj2
        (@verifyClick_spec QuotientFormat.format
           [("url", JS.JStr "a")]%string [("url", JS.JStr "b")]%string))))
        _ _ eq_refl eq_refl (fun _ => conj eq_refl eq_refl))
      as (r & Hr & _ & _ & Hv & _).
    exists r. split; [exact Hr | exact (Hv eq_refl)].
  - destruct (proj2 (proj2 (proj2 (proj2
        (@verifyClick_spec QuotientFormat.format snapshot_nested snapshot_nested))))
        eq_refl eq_refl) as (r & Hr & Hv & _).
    exists r. split; [exact Hr |]. apply Hv. discriminate.
  - destruct (proj2 (proj2 (proj2 (proj2
        (@verifyClick_spec QuotientFormat.format snapshot_nan snapshot_nan))))
        eq_refl eq_refl) as (r & Hr & _ & Hv).
    exists r. split; [exact Hr |]. apply Hv. reflexivity.
  - split.
    + rewrite (proj1 (proj2 (@verifyClick_spec QuotientFormat.format
                               snapshot_url_first snapshot_bigint))).
      reflexivity.
    + rewrite (proj1 (proj2 (@verifyClick_spec QuotientFormat.format
                               snapshot_cyclic snapshot_url_first))).
      reflexivity.
Defined.

(** ** MLDeceptionHunter.analyzeWithML *)

Section analyzeWithML_properties.
Context {engine : RegExpEngine} {rt : MLRuntime}.
Import MLDeceptionHunter.

(** [analyzeRegex] is the sum of the weights of the matched patterns,
    capped at 100. *)
Lemma analyzeRegex_capped_sum this page_content :
  analyzeRegex this page_content = Z.min 100 (total_weight (analyze this page_content)).
Proof.
  unfold analyzeRegex.
  assert (fold : forall ps acc,
    fold_left (fun score pattern =>
                 match severity pattern with
                 | high => score + 30
                 | medium => score + 20
                 | low => score + 10
                 end) ps acc = acc + total_weight ps).
  { induction ps as [| p ps IH]; intros acc; simpl; [lia |].
    rewrite IH. unfold severity_weight. destruct (severity p); lia. }
  rewrite fold.
  destruct (analyze this page_content) as [| p ps]; simpl; [reflexivity |].
  reflexivity.
Qed.

(** In the ready phase the three models are present and live. *)
Lemma reachable_ready this :
  reachable this ->
  mlEnabled this = true ->
  exists cnn lstm meta,
    cnnModel this = Some {| CNNModel.model := Some cnn |} /\
    lstmModel this = Some {| LSTMModel.model := Some lstm |} /\
    ensemble this = Some {| EnsembleModel.metaLearner := Some meta;
                            EnsembleModel.isInitialized := true |}.
Proof.
  induction 1 as [| pattern this _ IH | cnn lstm meta this _ IH | this _ IH]; simpl.
  - discriminate.
  - exact IH.
  - unfold initializeML. destruct (mlEnabled this) eqn:E.
    + intros _. by apply IH.
    + intros _. by exists cnn, lstm, meta.
  - discriminate.
Qed.

(** Every hunter keeps the preprocessor of its constructor. *)
Lemma reachable_preprocessor this :
  reachable this -> preprocessor this = MLPreprocessor.constructor 1000 100.
Proof.
  induction 1 as [| pattern this _ IH | cnn lstm meta this _ IH | this _ IH];
    [done | exact IH | | exact IH].
  unfold initializeML. by destruct (mlEnabled this).
Qed.

(** The feature of an action: its weight, but for the names that
    Object.prototype defines. *)
Lemma actionToFeature_numeric action :
  MLPreprocessor.numeric_action action ->
  MLPreprocessor.actionToFeature action = FNumber (MLPreprocessor.action_weight action).
Proof.
  intros Hnum. unfold MLPreprocessor.actionToFeature, MLPreprocessor.action_weight.
  repeat (match goal with
          | |- context [String.eqb action ?s] => destruct (String.eqb action s)
          end; [reflexivity |]).
  by rewrite bool_decide_eq_false_2.
Qed.

Lemma actionToFeature_inherited action :
  action ∈ JS.Object_prototype_properties ->
  MLPreprocessor.actionToFeature action = FInherited action.
Proof.
  unfold JS.Object_prototype_properties. intros Hin.
  repeat (apply elem_of_cons in Hin as [-> | Hin]; [reflexivity |]).
  by apply elem_of_nil in Hin.
Qed.

Lemma features_numeric (this : MLPreprocessor.t) (interactions : list Interaction) :
  Forall (fun interaction => MLPreprocessor.numeric_action (action interaction))
         (take (Z.to_nat (MLPreprocessor.sequenceLength this)) interactions) ->
  MLPreprocessor.features this interactions
    = fmap (M:=list) (fmap (M:=list) FNumber) (MLPreprocessor.number_rows this interactions).
Proof.
  intros Hnum. unfold MLPreprocessor.features, MLPreprocessor.number_rows. cbv zeta.
  rewrite fmap_app, fmap_replicate, length_fmap. f_equal.
  induction Hnum as [| interaction rest Hi _ IH]; [done |].
  cbn [fmap list_fmap]. f_equal; [| exact IH].
  unfold MLPreprocessor.feature_row, MLPreprocessor.number_row.
  by rewrite (actionToFeature_numeric _ Hi).
Qed.

Lemma number_rows_length (this : MLPreprocessor.t) (interactions : list Interaction) :
  length (MLPreprocessor.number_rows this interactions) = Z.to_nat (MLPreprocessor.sequenceLength this).
Proof.
  unfold MLPreprocessor.number_rows. cbv zeta.
  rewrite length_app, length_replicate, length_fmap, length_take. lia.
Qed.

Lemma sequenceFromInteractions_numeric (this : MLPreprocessor.t)
    (interactions : list Interaction) :
  0 <= MLPreprocessor.sequenceLength this ->
  Forall (fun interaction => MLPreprocessor.numeric_action (action interaction))
         (take (Z.to_nat (MLPreprocessor.sequenceLength this)) interactions) ->
  MLPreprocessor.sequenceFromInteractions this interactions
    = Ok (MLPreprocessor.number_rows this interactions).
Proof.
  intros Hlen Hnum. unfold MLPreprocessor.sequenceFromInteractions.
  rewrite (features_numeric this interactions Hnum).
  apply tensor2d_numbers.
  - rewrite number_rows_length. lia.
  - unfold MLPreprocessor.number_rows. cbv zeta. apply Forall_app. split.
    + apply Forall_fmap, Forall_true. done.
    + apply Forall_replicate. done.
Qed.


End analyzeWithML_properties.


(** ** MLPreprocessor: the vocabulary and its capacity *)

Section vocabulary_properties.
Import MLPreprocessor.

(** The seeded vocabulary does not depend on the capacity: the 33 default
    tokens, numbered from 1 to 33. *)
Lemma constructor_vocab (vocabSize sequenceLength : Z) :
  vocab (constructor vocabSize sequenceLength) = vocab (constructor 0 0) /\
  MLPreprocessor.vocabSize (constructor vocabSize sequenceLength) = vocabSize.
Proof. split; reflexivity. Qed.

Lemma default_vocab_size : size (vocab (constructor 0 0)) = 33%nat.
Proof. vm_compute. reflexivity. Qed.

Lemma default_vocab_indices :
  map_Forall (fun _ idx => 1 <= idx <= 33) (vocab (constructor 0 0)).
Proof. apply (bool_decide_unpack _). vm_compute. reflexivity. Qed.

(** C10, the claim as stated fails: a preprocessor built with a capacity
    of 10 holds the 33 seeded tokens, and the index 33 of the last one
    is outside [1, 10]. *)
Lemma constructor_exceeds_small_capacity :
  size (vocab (constructor 10 100)) = 33%nat /\
  vocab (addTokens [] (constructor 10 100)) !! "modal"%string = Some 33 /\
  MLPreprocessor.vocabSize (constructor 10 100) = 10.
Proof. split; [| split]; vm_compute; reflexivity. Qed.

Lemma constructor_bounded (vocabSize sequenceLength : Z) :
  vocabulary_bounded vocabSize (constructor vocabSize sequenceLength).
Proof.
  destruct (constructor_vocab vocabSize sequenceLength) as [Hv Hs].
  unfold vocabulary_bounded. rewrite Hv, Hs.
  pose proof default_vocab_size as Hsize.
  pose proof default_vocab_indices as Hidx.
  revert Hsize Hidx. generalize (vocab (constructor 0 0)). clear Hv Hs.
  intros v Hsize Hidx. rewrite Hsize.
  split; [reflexivity |]. split; [lia |]. split.
  - intros token idx Hin. pose proof (Hidx token idx Hin) as H. cbv beta in H. lia.
  - intros token idx Hnone Hsome. rewrite Hnone in Hsome. discriminate.
Qed.

(** A token that is added is new, and its index is the new size. *)
Lemma addToken_cases (this : t) (token : string) :
  (addToken this token = this /\
   (MLPreprocessor.vocabSize this < Z.of_nat (size (vocab this)) + 1 \/
    is_Some (vocab this !! toLowerCase token))) \/
  (vocab this !! toLowerCase token = None /\
   Z.of_nat (size (vocab this)) + 1 <= MLPreprocessor.vocabSize this /\
   addToken this token =
     {| vocab := <[toLowerCase token := Z.of_nat (size (vocab this)) + 1]> (vocab this);
        vocabSize := MLPreprocessor.vocabSize this;
        sequenceLength := MLPreprocessor.sequenceLength this |}).
Proof.
  unfold addToken.
  destruct (Z.leb_spec (Z.of_nat (size (vocab this)) + 1) (MLPreprocessor.vocabSize this))
    as [Hle | Hgt]; simpl.
  - destruct (vocab this !! toLowerCase token) as [idx |] eqn:Hlook.
    + left. rewrite bool_decide_eq_true_2 by eauto. simpl. split; [done | right; eauto].
    + right. rewrite bool_decide_eq_false_2 by (by intros [? ?]). simpl. done.
  - left. split; [done | left; lia].
Qed.

Lemma addToken_bounded capacity (this : t) (token : string) :
  vocabulary_bounded capacity this -> vocabulary_bounded capacity (addToken this token).
Proof.
  intros (Hcap & Hsize & Hidx & Hnew).
  destruct (addToken_cases this token) as [[-> _] | (Hnone & Hle & ->)]; [done |].
  unfold vocabulary_bounded. cbn [vocab MLPreprocessor.vocabSize].
  rewrite map_size_insert_None by done.
  split; [done |]. split; [lia |]. split.
  - intros tok idx. rewrite lookup_insert. case_decide.
    + intros [= <-]. lia.
    + apply Hidx.
  - intros tok idx Hd. rewrite lookup_insert. case_decide.
    + intros [= <-]. lia.
    + by apply Hnew.
Qed.

Lemma addTokens_bounded capacity (tokens : list string) (this : t) :
  vocabulary_bounded capacity this -> vocabulary_bounded capacity (addTokens tokens this).
Proof.
  unfold addTokens. revert this.
  induction tokens as [| token tokens IH]; intros this Hb; simpl; [done |].
  by apply IH, addToken_bounded.
Qed.

(** No call changes a mapping that exists. *)
Lemma addToken_preserves (this : t) (token key : string) (idx : Z) :
  vocab this !! key = Some idx -> vocab (addToken this token) !! key = Some idx.
Proof.
  intros Hkey.
  destruct (addToken_cases this token) as [[-> _] | (Hnone & _ & ->)]; [done |].
  cbn [vocab]. rewrite lookup_insert_ne; [done | congruence].
Qed.

Lemma addTokens_preserves (tokens : list string) (this : t) (key : string) (idx : Z) :
  vocab this !! key = Some idx -> vocab (addTokens tokens this) !! key = Some idx.
Proof.
  unfold addTokens. revert this.
  induction tokens as [| token tokens IH]; intros this Hkey; simpl; [done |].
  by apply IH, addToken_preserves.
Qed.

(** For any capacity: after any sequence of addTokens calls the
    vocabulary holds at most max(vocabSize, 33) entries, and a token that
    was not seeded has an index in [34, vocabSize]. *)
Lemma addTokens_calls_bounded (vocabSize sequenceLength : Z) (calls : list (list string)) :
  vocabulary_bounded vocabSize
    (foldl (fun this tokens => addTokens tokens this)
           (constructor vocabSize sequenceLength) calls).
Proof.
  generalize (constructor_bounded vocabSize sequenceLength).
  generalize (constructor vocabSize sequenceLength).
  induction calls as [| tokens calls IH]; intros this Hb; simpl; [done |].
  by apply IH, addTokens_bounded.
Qed.

(** C10, amended: for every MLPreprocessor constructed with a capacity
    vocabSize of at least 33 (the number of tokens the constructor
    seeds) and every sequence of addTokens calls, the vocabulary never
    holds more than vocabSize entries and every index lies in
    [1, vocabSize].  For any capacity, a token offered when the
    vocabulary is full, or whose lower-cased form is present, is ignored,
    and no call changes an existing mapping. *)
Theorem addTokens_capacity (vocabSize sequenceLength : Z) (calls : list (list string)) :
  let this :=
    foldl (fun this tokens => addTokens tokens this)
          (constructor vocabSize sequenceLength) calls in
  (33 <= vocabSize ->
     Z.of_nat (size (vocab this)) <= vocabSize /\
     (forall token idx, vocab this !! token = Some idx -> 1 <= idx <= vocabSize)) /\
  (forall token,
      vocabSize <= Z.of_nat (size (vocab this)) \/ is_Some (vocab this !! toLowerCase token) ->
      addToken this token = this) /\
  (forall tokens token idx,
      vocab this !! token = Some idx -> vocab (addTokens tokens this) !! token = Some idx).
Proof.
  intros this.
  destruct (addTokens_calls_bounded vocabSize sequenceLength calls)
    as (Hcap & Hsize & Hidx & Hnew).
  fold this in Hcap, Hsize, Hidx, Hnew.
  split; [| split].
  - intros Hbig. split; [lia |].
    intros token idx Hin. pose proof (Hidx token idx Hin). lia.
  - intros token Hfull.
    destruct (addToken_cases this token) as [[Heq _] | (Hnone & Hle & _)]; [done |].
    destruct Hfull as [Hfull | [idx Hin]]; [lia | congruence].
  - intros tokens token idx. apply addTokens_preserves.
Qed.

(** A preprocessor of capacity 35: two new tokens are numbered 34 and
    35, the third is ignored, and the mappings made stay. *)
Lemma addTokens_capacity_witness :
  Z.of_nat (size (vocab (addTokens ["Alpha"; "beta"]%string (constructor 35 100)))) <= 35 /\
  addToken (addTokens ["Alpha"; "beta"]%string (constructor 35 100)) "gamma"
    = addTokens ["Alpha"; "beta"]%string (constructor 35 100) /\
  vocab (addTokens ["gamma"; "CAPTCHA"]%string
           (addTokens ["Alpha"; "beta"]%string (constructor 35 100)))
    !! "beta"%string = Some 35.
Proof.
  pose proof (addTokens_capacity 35 100 [["Alpha"; "beta"]%string]) as H.
  cbv zeta in H. cbn [foldl] in H. destruct H as (Hbound & Hfull & Hkeep).
  split; [| split].
  - assert (33 <= 35) as Hbig by lia. destruct (Hbound Hbig) as [Hsize _]. exact Hsize.
  - apply (Hfull "gamma"%string). left. vm_compute. discriminate.
  - apply (Hkeep ["gamma"; "CAPTCHA"]%string "beta"%string 35). vm_compute. reflexivity.
Defined.

End vocabulary_properties.

(** ** StateMachine: the store *)

Section store_lemmas.
Import StateMachine.

Lemma object_at_alloc_old s h l :
  (l < length (objects h))%nat -> object_at (alloc_object s h).2 l = object_at h l.
Proof. intros Hl. unfold object_at. simpl. by rewrite lookup_total_app_l. Qed.

Lemma object_at_alloc_new s h :
  object_at (alloc_object s h).2 (alloc_object s h).1 = s.
Proof. unfold object_at. simpl. by apply list_lookup_total_middle. Qed.

Lemma record_at_alloc_old r h l :
  (l < length (records h))%nat -> record_at (alloc_record r h).2 l = record_at h l.
Proof. intros Hl. unfold record_at. simpl. by rewrite lookup_total_app_l. Qed.

Lemma array_at_alloc_old a h l :
  (l < length (arrays h))%nat -> array_at (alloc_array a h).2 l = array_at h l.
Proof. intros Hl. unfold array_at. simpl. by rewrite lookup_total_app_l. Qed.

Lemma array_at_alloc_new a h :
  array_at (alloc_array a h).2 (alloc_array a h).1 = a.
Proof. unfold array_at. simpl. by apply list_lookup_total_middle. Qed.

Lemma array_at_push a e h :
  (a < length (arrays h))%nat -> array_at (array_push a e h) a = array_at h a ++ [e].
Proof. intros Ha. unfold array_at. simpl. by rewrite list_lookup_total_insert_eq. Qed.

(** [default_record] leaves objects and arrays alone and keeps the
    records it found. *)
Lemma default_record_frame arg h :
  objects (default_record arg h).2 = objects h /\
  arrays (default_record arg h).2 = arrays h /\
  (length (records h) <= length (records (default_record arg h).2))%nat /\
  (forall l, (l < length (records h))%nat ->
             record_at (default_record arg h).2 l = record_at h l).
Proof.
  destruct arg as [d |]; simpl; [by repeat split |].
  repeat split; [rewrite length_app; lia |].
  intros l Hl. by apply record_at_alloc_old.
Qed.

(** *** What each method does to the machine and the store *)

Lemma constructor_effect config fresh_id now h :
  constructor config fresh_id now h =
    ({| current := length (objects h);
        history := length (arrays h);
        states := IStateConfig.states config;
        transitions := IStateConfig.transitions config |},
     let s := {| id := fresh_id; name := IStateConfig.initialState config;
                 timestamp := now; data := length (records h) |} in
     {| objects := objects h ++ [s; s];
        records := records h ++ [[]];
        arrays := arrays h ++ [[S (length (objects h))]] |}).
Proof.
  unfold constructor. simpl. unfold array_push, array_at, object_at. simpl.
  rewrite list_lookup_total_middle by done.
  rewrite list_lookup_total_middle by done.
  rewrite <- app_assoc. simpl.
  rewrite length_app. simpl. rewrite Nat.add_1_r.
  f_equal. f_equal.
  assert (length (arrays h) = length (arrays h) + 0)%nat as Hlen by lia.
  rewrite Hlen at 1. by rewrite insert_app_r.
Qed.

Lemma setState_effect sname sdata fresh_id now this h :
  setState sname sdata fresh_id now this h =
    let '(d, h1) := default_record sdata h in
    if bool_decide (sname ∈ states this) then
      let s := {| id := fresh_id; name := sname; timestamp := now; data := d |} in
      (Ok (length (objects h)),
       {| current := length (objects h); history := history this;
          states := states this; transitions := transitions this |},
       {| objects := objects h ++ [s; s];
          records := records h1;
          arrays := <[history this := array_at h (history this) ++ [S (length (objects h))]]>
                      (arrays h) |})
    else (Throw (InvalidStateName sname), this, h1).
Proof.
  unfold setState.
  pose proof (default_record_frame sdata h) as (Hobj & Harr & _ & _).
  destruct (default_record sdata h) as [d h1]. simpl in Hobj, Harr.
  destruct (bool_decide (sname ∈ states this)); simpl; [| done].
  unfold array_push, array_at, object_at. simpl. rewrite Hobj, Harr.
  rewrite list_lookup_total_middle by done.
  rewrite <- app_assoc. simpl. rewrite length_app. simpl. by rewrite Nat.add_1_r.
Qed.

Lemma reset_effect fresh_id now this h first rest :
  array_at h (history this) = first :: rest ->
  reset fresh_id now this h =
    let s := {| id := fresh_id; name := name (object_at h first);
                timestamp := now; data := data (object_at h first) |} in
    ({| current := length (objects h); history := length (arrays h);
        states := states this; transitions := transitions this |},
     {| objects := objects h ++ [s; s];
        records := records h;
        arrays := arrays h ++ [[S (length (objects h))]] |}).
Proof.
  intros Harr. unfold reset. rewrite Harr. simpl.
  unfold object_at at 3. simpl.
  rewrite list_lookup_total_middle by done.
  rewrite <- app_assoc. simpl. rewrite length_app. simpl. by rewrite Nat.add_1_r.
Qed.

End store_lemmas.

(** ** StateMachine: the invariant *)

Section invariant_lemmas.
Import StateMachine.
Context (config : IStateConfig.t).

(** Reading the two objects that a state change appends. *)
Lemma lookup_total_two `{Inhabited A} (l : list A) (a b : A) :
  (l ++ [a; b]) !!! length l = a /\ (l ++ [a; b]) !!! S (length l) = b.
Proof.
  split; [by apply list_lookup_total_middle |].
  rewrite (cons_middle a l [b]), app_assoc.
  apply list_lookup_total_middle. rewrite length_app. simpl. lia.
Qed.

Lemma constructor_invariant fresh_id now h :
  invariant config (constructor config fresh_id now h).1 (constructor config fresh_id now h).2.
Proof.
  rewrite constructor_effect. cbv zeta. cbn [fst snd].
  set (s := {| id := fresh_id; name := IStateConfig.initialState config;
               timestamp := now; data := length (records h) |}).
  destruct (lookup_total_two (objects h) s s) as [Hfst Hsnd].
  split; unfold array_at, object_at, record_at;
    cbn [current history states transitions objects records arrays]; try done.
  - rewrite length_app. simpl. lia.
  - rewrite length_app. simpl. lia.
  - rewrite list_lookup_total_middle by done.
    constructor; [| constructor]. rewrite length_app. simpl. lia.
  - eexists _, _. rewrite list_lookup_total_middle by done.
    split; [reflexivity |]. rewrite Hsnd. cbn [name data s].
    split; [done |]. split; [rewrite length_app; simpl; lia |].
    by rewrite list_lookup_total_middle.
  - intros Hin. by rewrite Hfst.
Qed.

Lemma extends_refl h : extends h h.
Proof. exists [], [], []. by rewrite !app_nil_r. Qed.

Lemma extends_lookup h h' :
  extends h h' ->
  (forall l, (l < length (objects h))%nat -> object_at h' l = object_at h l) /\
  (forall l, (l < length (records h))%nat -> record_at h' l = record_at h l) /\
  (forall l, (l < length (arrays h))%nat -> array_at h' l = array_at h l) /\
  (length (objects h) <= length (objects h'))%nat /\
  (length (records h) <= length (records h'))%nat /\
  (length (arrays h) <= length (arrays h'))%nat.
Proof.
  intros (no & nr & na & Ho & Hr & Ha).
  unfold object_at, record_at, array_at. rewrite Ho, Hr, Ha, !length_app.
  repeat split; try lia; intros l Hl; by rewrite lookup_total_app_l.
Qed.

Lemma default_record_extends arg h : extends h (default_record arg h).2.
Proof.
  destruct arg as [d |]; simpl; [apply extends_refl |].
  exists [], [[]], []. simpl. by rewrite !app_nil_r.
Qed.

Lemma getState_extends this h : extends h (getState this h).2.
Proof. eexists [_], [], []. simpl. by rewrite !app_nil_r. Qed.

Lemma getHistory_extends this h : extends h (getHistory this h).2.
Proof. eexists [], [], [_]. simpl. by rewrite !app_nil_r. Qed.

(** The snapshot of an allocated State object survives an extension. *)
Lemma snapshot_extends h h' l :
  extends h h' ->
  (l < length (objects h))%nat ->
  (data (object_at h l) < length (records h))%nat ->
  snapshot h' l = snapshot h l.
Proof.
  intros Hext Hl Hd.
  destruct (extends_lookup h h' Hext) as (Ho & Hr & _).
  unfold snapshot. rewrite (Ho l Hl). by rewrite (Hr _ Hd).
Qed.

Lemma invariant_extends this h h' :
  extends h h' -> invariant config this h -> invariant config this h'.
Proof.
  intros Hext [Hs Ht Hc Hh He (first & rest & Harr & Hname & Hdata & Hrec) Hn].
  destruct (extends_lookup h h' Hext) as (Ho & Hr & Ha & Hlo & Hlr & Hla).
  rewrite Harr in He. pose proof (Forall_inv He) as Hfirst.
  split; try done.
  - lia.
  - lia.
  - rewrite (Ha _ Hh), Harr. eapply Forall_impl; [exact He |]. simpl. lia.
  - exists first, rest. rewrite (Ha _ Hh), (Ho _ Hfirst).
    split; [done |]. split; [done |]. split; [lia |]. by rewrite (Hr _ Hdata).
  - intros Hin. rewrite (Ho _ Hc). by apply Hn.
Qed.

(** A successful [setState], from a store [h1] that extends [h]. *)
Lemma invariant_change this h h1 s :
  extends h h1 ->
  invariant config this h ->
  name s ∈ states this ->
  invariant config
    {| current := length (objects h); history := history this;
       states := states this; transitions := transitions this |}
    {| objects := objects h ++ [s; s];
       records := records h1;
       arrays := <[history this := array_at h (history this) ++ [S (length (objects h))]]>
                   (arrays h) |}.
Proof.
  intros Hext [Hs Ht Hc Hh He (first & rest & Harr & Hname & Hdata & Hrec) Hn] Hin.
  destruct (extends_lookup h h1 Hext) as (_ & Hr & _ & _ & Hlr & _).
  destruct (lookup_total_two (objects h) s s) as [Hfst Hsnd].
  rewrite Harr in He. pose proof (Forall_inv He) as Hfirst.
  assert (Hold : forall l, (l < length (objects h))%nat ->
                           (objects h ++ [s; s]) !!! l = object_at h l).
  { intros l Hl. unfold object_at. by rewrite lookup_total_app_l. }
  split; unfold array_at, object_at, record_at in *;
    cbn [current history states transitions objects records arrays]; try done.
  - rewrite length_app. simpl. lia.
  - by rewrite length_insert.
  - rewrite list_lookup_total_insert_eq by done. rewrite Harr.
    apply Forall_app. split.
    + eapply Forall_impl; [exact He |]. simpl. intros l Hl. rewrite length_app. simpl. lia.
    + constructor; [| constructor]. rewrite length_app. simpl. lia.
  - exists first, (rest ++ [S (length (objects h))]).
    rewrite list_lookup_total_insert_eq by done. rewrite Harr.
    split; [done |]. rewrite (Hold _ Hfirst).
    split; [done |]. split; [lia |].
    by rewrite (Hr _ Hdata).
  - intros _. rewrite Hfst. by rewrite <- Hs.
Qed.

Lemma setState_invariant sname sdata fresh_id now this h :
  invariant config this h ->
  invariant config (setState sname sdata fresh_id now this h).1.2
                   (setState sname sdata fresh_id now this h).2.
Proof.
  intros Hinv. rewrite setState_effect.
  pose proof (default_record_extends sdata h) as Hext.
  destruct (default_record sdata h) as [d h1]. cbn [snd] in Hext.
  case_bool_decide as Hin; cbn [fst snd].
  - by apply invariant_change.
  - by apply (invariant_extends this h h1).
Qed.

Lemma transition_invariant to metadata fresh_id now this h :
  invariant config this h ->
  invariant config (transition to metadata fresh_id now this h).1.2
                   (transition to metadata fresh_id now this h).2.
Proof.
  intros Hinv. unfold transition.
  pose proof (default_record_extends metadata h) as Hext.
  destruct (default_record metadata h) as [m h1]. cbn [snd] in Hext.
  pose proof (invariant_extends this h h1 Hext Hinv) as Hinv1.
  destruct (allowed_transitions _ _) as [allowed |]; [| done].
  destruct (negb _); cbn [fst snd]; [done |].
  pose proof (setState_invariant to (Some m) fresh_id now this h1 Hinv1) as Hset.
  destruct (setState to (Some m) fresh_id now this h1) as [[[r | e] this'] h']; exact Hset.
Qed.

Lemma reset_invariant fresh_id now this h :
  invariant config this h ->
  invariant config (reset fresh_id now this h).1 (reset fresh_id now this h).2.
Proof.
  intros [Hs Ht Hc Hh He (first & rest & Harr & Hname & Hdata & Hrec) Hn].
  rewrite (reset_effect fresh_id now this h first rest Harr). cbv zeta. cbn [fst snd].
  set (s := {| id := fresh_id; name := name (object_at h first);
               timestamp := now; data := data (object_at h first) |}).
  destruct (lookup_total_two (objects h) s s) as [Hfst Hsnd].
  split; unfold array_at, object_at, record_at in *;
    cbn [current history states transitions objects records arrays]; try done.
  - rewrite length_app. simpl. lia.
  - rewrite length_app. simpl. lia.
  - rewrite list_lookup_total_middle by done.
    constructor; [| constructor]. rewrite length_app. simpl. lia.
  - eexists _, _. rewrite list_lookup_total_middle by done.
    split; [reflexivity |]. rewrite Hsnd. cbn [name data s]. done.
  - intros Hin. rewrite Hfst. cbn [name s]. by rewrite Hname.
Qed.

Lemma step_invariant op this h :
  invariant config this h ->
  invariant config (step op (this, h)).2.1 (step op (this, h)).2.2.
Proof.
  intros Hinv. destruct op as [sname sdata fid now | to md fid now | fid now | |];
    cbn [step].
  - pose proof (setState_invariant sname sdata fid now this h Hinv) as H.
    by destruct (setState sname sdata fid now this h) as [[r this'] h'].
  - pose proof (transition_invariant to md fid now this h Hinv) as H.
    by destruct (transition to md fid now this h) as [[r this'] h'].
  - by apply reset_invariant.
  - cbn [fst snd]. by apply (invariant_extends this h _ (getState_extends this h)).
  - cbn [fst snd]. by apply (invariant_extends this h _ (getHistory_extends this h)).
Qed.

Lemma run_invariant ops this h :
  invariant config this h ->
  invariant config (run ops (this, h)).1 (run ops (this, h)).2.
Proof.
  revert this h. induction ops as [| op ops IH]; intros this h Hinv; [done |].
  unfold run. cbn [foldl]. fold (run ops (step op (this, h)).2).
  pose proof (step_invariant op this h Hinv) as Hstep.
  destruct (step op (this, h)) as [ok [this' h']]. by apply IH.
Qed.

End invariant_lemmas.

(** ** StateMachine: transition and setState *)

Section transition_properties.
Import StateMachine.

Lemma setState_succeeds_iff sname sdata fresh_id now this h :
  succeeds (setState sname sdata fresh_id now this h).1.1 = true <-> sname ∈ states this.
Proof.
  rewrite setState_effect. destruct (default_record sdata h) as [d h1].
  case_bool_decide; cbn [fst succeeds]; split; try done.
Qed.

Lemma transition_succeeds_iff to metadata fresh_id now this h :
  succeeds (transition to metadata fresh_id now this h).1.1 = true <->
  to ∈ default [] (transitions this !! name (object_at h (current this))) /\ to ∈ states this.
Proof.
  unfold transition.
  pose proof (default_record_frame metadata h) as (Hobj & _).
  destruct (default_record metadata h) as [m h1]. cbn [snd] in Hobj.
  unfold object_at. rewrite Hobj.
  assert (Hcases :
    exists allowed : list string,
      default [] (transitions this !! name (objects h !!! current this)) = allowed /\
      (allowed_transitions this (name (objects h !!! current this)) = Some allowed \/
       allowed_transitions this (name (objects h !!! current this)) = None /\ allowed = [])).
  { unfold allowed_transitions.
    destruct (transitions this !! name (objects h !!! current this)) as [allowed |];
      cbn [default]; [by eauto |].
    case_bool_decide; eauto. }
  destruct Hcases as (allowed & -> & [-> | [-> ->]]).
  - case_bool_decide as Hallowed; cbn [negb].
    + pose proof (setState_succeeds_iff to (Some m) fresh_id now this h1) as Hset.
      destruct (setState to (Some m) fresh_id now this h1) as [[[r | e] this'] h'];
        cbn [fst succeeds] in *; split; tauto.
    + cbn [fst succeeds]. split; [done | tauto].
  - cbn [fst succeeds]. split; [done |]. by intros [?%elem_of_nil _].
Qed.

(** C3, the claim as stated fails: with a transition table that names a
    state outside the configured set, the target is a member of
    transitions[current.name] and the transition fails all the same (the
    setState it delegates to rejects the name). *)
Lemma transition_to_unconfigured_target_fails :
  ("GHOST"%string ∈
     default [] (IStateConfig.transitions config_ghost_target
                   !! name (object_at world_ghost_target.2 (current world_ghost_target.1)))) /\
  (transition "GHOST" None "s1" 1 world_ghost_target.1 world_ghost_target.2).1.1
    = Throw (InvalidStateName "GHOST") /\
  succeeds (transition "GHOST" None "s1" 1 world_ghost_target.1 world_ghost_target.2).1.1
    = false.
Proof.
  split; [| split]; [| reflexivity | reflexivity].
  vm_compute. apply list_elem_of_here.
Qed.

(** C3, amended: in every state that the constructor and the methods
    produce, transition(to) succeeds iff to is a member of
    transitions[current.name] (an absent entry meaning none) and of the
    configured states set; setState(s) succeeds iff s is a member of the
    configured states set. *)
Theorem transition_setState_succeed_iff
    (config : IStateConfig.t) (fresh_id0 : string) (now0 : Z) (h0 : Heap) (ops : list Op) :
  let w := run ops (constructor config fresh_id0 now0 h0) in
  (forall to metadata fresh_id now,
      succeeds (transition to metadata fresh_id now w.1 w.2).1.1 = true <->
      to ∈ default [] (IStateConfig.transitions config !! name (object_at w.2 (current w.1)))
      /\ to ∈ IStateConfig.states config) /\
  (forall sname sdata fresh_id now,
      succeeds (setState sname sdata fresh_id now w.1 w.2).1.1 = true <->
      sname ∈ IStateConfig.states config).
Proof.
  intros w.
  assert (Hinv : invariant config w.1 w.2).
  { subst w. pose proof (constructor_invariant config fresh_id0 now0 h0) as H0.
    destruct (constructor config fresh_id0 now0 h0) as [this0 h0'].
    by apply run_invariant. }
  destruct Hinv as [Hs Ht _ _ _ _ _]. split.
  - intros to metadata fresh_id now.
    rewrite transition_succeeds_iff. by rewrite Hs, Ht.
  - intros sname sdata fresh_id now.
    rewrite setState_succeeds_iff. by rewrite Hs.
Qed.

(** After the click cycle the machine is in VERIFIED, which has no
    outgoing transition; setState to a configured state still succeeds. *)
Lemma transition_setState_succeed_iff_witness :
  succeeds (transition "FAILED" None "s4" 4
              (run click_cycle world_click).1 (run click_cycle world_click).2).1.1 = false /\
  succeeds (setState "IDLE" None "s4" 4
              (run click_cycle world_click).1 (run click_cycle world_click).2).1.1 = true.
Proof.
  pose proof (transition_setState_succeed_iff config_click "s0" 0 empty_heap click_cycle)
    as [Htr Hset].
  split.
  - apply not_true_is_false. intros Hok.
    apply Htr in Hok as [Hallowed _]. vm_compute in Hallowed.
    by apply not_elem_of_nil in Hallowed.
  - apply Hset. apply list_elem_of_here.
Defined.

End transition_properties.

(** ** StateMachine: the current state and the history *)

Section history_properties.
Import StateMachine.

(** C4, the claim as stated fails: the constructor checks nothing.  A
    configuration whose initial state is outside the states set is
    accepted, and the current state's name is outside the set right
    after construction, and again after reset. *)
Lemma constructor_accepts_unconfigured_initial :
  s_name (current_snapshot world_ghost_initial.1 world_ghost_initial.2) = "GHOST"%string /\
  ("GHOST"%string ∉ IStateConfig.states config_ghost_initial) /\
  s_name (current_snapshot
            (reset "s1" 1 world_ghost_initial.1 world_ghost_initial.2).1
            (reset "s1" 1 world_ghost_initial.1 world_ghost_initial.2).2) = "GHOST"%string.
Proof.
  split; [reflexivity |]. split; [| reflexivity].
  simpl. apply not_elem_of_cons. split; [discriminate | apply not_elem_of_nil].
Qed.

(** C4, amended: for every configuration whose initial state is a member
    of the states set, and every sequence of setState, transition, reset,
    getState and getHistory calls (failed calls included), the current
    state's name is a member of the configured states set, right after
    construction and after each call.  The constructor itself rejects
    nothing. *)
Theorem current_name_configured
    (config : IStateConfig.t) (fresh_id0 : string) (now0 : Z) (h0 : Heap) (ops : list Op) :
  IStateConfig.initialState config ∈ IStateConfig.states config ->
  let w := run ops (constructor config fresh_id0 now0 h0) in
  s_name (current_snapshot w.1 w.2) ∈ IStateConfig.states config.
Proof.
  intros Hinit w.
  assert (Hinv : invariant config w.1 w.2).
  { subst w. pose proof (constructor_invariant config fresh_id0 now0 h0) as H0.
    destruct (constructor config fresh_id0 now0 h0) as [this0 h0'].
    by apply run_invariant. }
  by apply (inv_name config _ _ Hinv).
Qed.

Lemma current_name_configured_witness :
  s_name (current_snapshot (run click_cycle world_click).1 (run click_cycle world_click).2)
    ∈ IStateConfig.states config_click.
Proof.
  apply (current_name_configured config_click "s0" 0 empty_heap click_cycle).
  apply list_elem_of_here.
Defined.

(** *** The length of the history and its first entry *)

Lemma history_extends config this h h' :
  invariant config this h ->
  extends h h' ->
  length (history_snapshots this h') = length (history_snapshots this h) /\
  history_snapshots this h' !! 0%nat = history_snapshots this h !! 0%nat.
Proof.
  intros [_ _ _ Hh He (first & rest & Harr & _ & Hdata & _) _] Hext.
  destruct (extends_lookup h h' Hext) as (_ & _ & Ha & _).
  unfold history_snapshots. rewrite (Ha _ Hh), !length_fmap. split; [done |].
  rewrite Harr in *. cbn. f_equal.
  apply snapshot_extends; [done | | done]. by apply Forall_inv in He.
Qed.

Lemma history_setState config sname sdata fresh_id now this h :
  invariant config this h ->
  let r := setState sname sdata fresh_id now this h in
  length (history_snapshots r.1.2 r.2) =
    (length (history_snapshots this h) + (if succeeds r.1.1 then 1 else 0))%nat /\
  history_snapshots r.1.2 r.2 !! 0%nat = history_snapshots this h !! 0%nat.
Proof.
  intros Hinv r. subst r. rewrite setState_effect.
  pose proof (default_record_extends sdata h) as Hext.
  destruct (default_record sdata h) as [d h1]. cbn [snd] in Hext.
  case_bool_decide as Hin; cbn [fst snd succeeds].
  - destruct Hinv as [_ _ _ Hh He (first & rest & Harr & _ & Hdata & _) _].
    destruct (extends_lookup h h1 Hext) as (_ & Hr & _).
    unfold history_snapshots, array_at. cbn [history arrays].
    rewrite list_lookup_total_insert_eq by done.
    fold (array_at h (history this)). rewrite fmap_app, length_app, !length_fmap.
    split; [done |]. rewrite Harr in *. cbn. f_equal.
    apply Forall_inv in He.
    unfold snapshot, object_at, record_at in *. cbn [objects records].
    rewrite lookup_total_app_l by done.
    by rewrite (Hr _ Hdata).
  - rewrite Nat.add_0_r. by apply (history_extends config).
Qed.

Lemma history_step config op this h :
  invariant config this h ->
  is_reset op = false ->
  let r := step op (this, h) in
  length (history_snapshots r.2.1 r.2.2) =
    (length (history_snapshots this h) + (if is_change op && r.1 then 1 else 0))%nat /\
  history_snapshots r.2.1 r.2.2 !! 0%nat = history_snapshots this h !! 0%nat.
Proof.
  intros Hinv Hop.
  destruct op as [sname sdata fid now | to md fid now | fid now | |];
    try discriminate; cbn [step is_change andb].
  - pose proof (history_setState config sname sdata fid now this h Hinv) as H.
    cbv zeta in H. by destruct (setState sname sdata fid now this h) as [[r this'] h'].
  - unfold transition.
    pose proof (default_record_extends md h) as Hext.
    destruct (default_record md h) as [m h1]. cbn [snd] in Hext.
    pose proof (invariant_extends config this h h1 Hext Hinv) as Hinv1.
    destruct (history_extends config this h h1 Hinv Hext) as [Hlen Hhead].
    destruct (allowed_transitions _ _) as [allowed |];
      [| cbn [fst snd succeeds]; by rewrite Nat.add_0_r].
    destruct (negb _); cbn [fst snd succeeds].
    + by rewrite Nat.add_0_r.
    + pose proof (history_setState config to (Some m) fid now this h1 Hinv1) as H.
      cbv zeta in H. rewrite Hlen, Hhead in H.
      by destruct (setState to (Some m) fid now this h1) as [[[r | e] this'] h'].
  - cbn [fst snd]. rewrite Nat.add_0_r.
    by apply (history_extends config), getState_extends.
  - cbn [fst snd]. rewrite Nat.add_0_r.
    by apply (history_extends config), getHistory_extends.
Qed.

Lemma history_run config ops this h :
  invariant config this h ->
  forallb (fun op => negb (is_reset op)) ops = true ->
  let w := run ops (this, h) in
  length (history_snapshots w.1 w.2) =
    (length (history_snapshots this h) + successful_changes ops (this, h))%nat /\
  history_snapshots w.1 w.2 !! 0%nat = history_snapshots this h !! 0%nat.
Proof.
  revert this h. induction ops as [| op ops IH]; intros this h Hinv Hops.
  - cbn. by rewrite Nat.add_0_r.
  - cbn in Hops. apply andb_true_iff in Hops as [Hop Hops].
    apply negb_true_iff in Hop.
    pose proof (history_step config op this h Hinv Hop) as Hstep. cbv zeta in Hstep.
    pose proof (step_invariant config op this h Hinv) as Hinv'.
    cbv zeta. unfold run. cbn [foldl successful_changes].
    fold (run ops (step op (this, h)).2).
    destruct (step op (this, h)) as [ok [this' h']]. cbn [fst snd] in *.
    destruct (IH this' h' Hinv' Hops) as [Hlen Hhead].
    destruct Hstep as [Hlen1 Hhead1]. rewrite Hlen, Hhead, Hlen1, Hhead1. split; [lia | done].
Qed.

(** Since construction: as long as reset is not called, the history
    has one entry more than the number of successful setState/transition
    calls, and its first entry is the one recorded at construction.  At
    any time the first entry has the initial name and empty data, and
    reset leaves a history of exactly one entry and makes the current
    state's name the configured initial name. *)
Lemma history_since_construction
    (config : IStateConfig.t) (fresh_id0 : string) (now0 : Z) (h0 : Heap) (ops : list Op) :
  let w0 := constructor config fresh_id0 now0 h0 in
  let w := run ops w0 in
  (forallb (fun op => negb (is_reset op)) ops = true ->
     length (history_snapshots w.1 w.2) = (successful_changes ops w0 + 1)%nat /\
     history_snapshots w.1 w.2 !! 0%nat =
       Some {| s_id := fresh_id0; s_name := IStateConfig.initialState config;
               s_timestamp := now0; s_data := [] |}) /\
  (exists first,
     history_snapshots w.1 w.2 !! 0%nat = Some first /\
     s_name first = IStateConfig.initialState config /\ s_data first = []) /\
  (forall fresh_id now,
     let w' := reset fresh_id now w.1 w.2 in
     length (history_snapshots w'.1 w'.2) = 1%nat /\
     s_name (current_snapshot w'.1 w'.2) = IStateConfig.initialState config).
Proof.
  intros w0 w.
  pose proof (constructor_invariant config fresh_id0 now0 h0) as Hinv0. fold w0 in Hinv0.
  assert (Hinv : invariant config w.1 w.2).
  { subst w. destruct w0 as [this0 h0']. by apply run_invariant. }
  split; [| split].
  - intros Hops.
    assert (Hstart :
      length (history_snapshots w0.1 w0.2) = 1%nat /\
      history_snapshots w0.1 w0.2 !! 0%nat =
        Some {| s_id := fresh_id0; s_name := IStateConfig.initialState config;
                s_timestamp := now0; s_data := [] |}).
    { subst w0. rewrite constructor_effect. cbv zeta. cbn [fst snd].
      unfold history_snapshots, array_at. cbn [history arrays].
      rewrite list_lookup_total_middle by done. cbn. split; [done |]. f_equal.
      unfold snapshot, object_at, record_at. cbn [objects records].
      rewrite (proj2 (lookup_total_two (objects h0) _ _)). cbn [id name timestamp data].
      by rewrite list_lookup_total_middle. }
    destruct Hstart as [Hlen0 Hhead0].
    subst w. destruct w0 as [this0 h0'].
    destruct (history_run config ops this0 h0' Hinv0 Hops) as [Hlen Hhead].
    cbn [fst snd] in *. rewrite Hlen, Hhead, Hlen0, Hhead0. split; [lia | done].
  - destruct Hinv as [_ _ _ _ _ (first & rest & Harr & Hname & _ & Hrec) _].
    exists (snapshot w.2 first). unfold history_snapshots. rewrite Harr. cbn.
    split; [done |]. by split.
  - intros fresh_id now.
    destruct Hinv as [_ _ _ _ _ (first & rest & Harr & Hname & _ & _) _].
    cbv zeta. rewrite (reset_effect fresh_id now w.1 w.2 first rest Harr).
    cbv zeta. cbn [fst snd].
    unfold history_snapshots, current_snapshot, array_at, snapshot, object_at.
    cbn [history current arrays objects].
    rewrite list_lookup_total_middle by done. split; [done |].
    rewrite (proj1 (lookup_total_two (objects w.2) _ _)). cbn [name s_name]. done.
Qed.

Lemma run_app (ops ops' : list Op) (w : t * Heap) :
  run (ops ++ ops') w = run ops' (run ops w).
Proof. unfold run. apply foldl_app. Qed.

(** C6, the claim as stated fails: it counts the successful calls since
    construction, and reset cuts the history back to one entry.  After
    transition('PENDING') and reset() one call has succeeded and the
    history has one entry, not two. *)
Lemma history_length_after_reset :
  successful_changes click_then_reset world_click = 1%nat /\
  length (history_snapshots (run click_then_reset world_click).1
                            (run click_then_reset world_click).2) = 1%nat.
Proof. split; reflexivity. Qed.

(** C6, amended: the history has one entry more than the number of
    setState/transition calls that succeeded since construction or since
    the last reset, whichever is later.  Under the calls of the machine
    its first entry always carries the configured initial name and the
    empty data of construction, and it is the entry recorded at
    construction as long as reset is not called.  At any time, reset
    leaves a history of exactly one entry and makes the current state's
    name the configured initial name. *)
Theorem history_length_and_reset
    (config : IStateConfig.t) (fresh_id0 : string) (now0 : Z) (h0 : Heap)
    (before later : list Op) :
  let w0 := constructor config fresh_id0 now0 h0 in
  let w1 := run before w0 in
  let w := run later w1 in
  ((before = [] \/ exists earlier fresh_id now, before = earlier ++ [OpReset fresh_id now]) ->
   forallb (fun op => negb (is_reset op)) later = true ->
   length (history_snapshots w.1 w.2) = (successful_changes later w1 + 1)%nat) /\
  (forallb (fun op => negb (is_reset op)) (before ++ later) = true ->
   history_snapshots w.1 w.2 !! 0%nat =
     Some {| s_id := fresh_id0; s_name := IStateConfig.initialState config;
             s_timestamp := now0; s_data := [] |}) /\
  (exists first,
     history_snapshots w.1 w.2 !! 0%nat = Some first /\
     s_name first = IStateConfig.initialState config /\ s_data first = []) /\
  (forall fresh_id now,
     let w' := reset fresh_id now w.1 w.2 in
     length (history_snapshots w'.1 w'.2) = 1%nat /\
     s_name (current_snapshot w'.1 w'.2) = IStateConfig.initialState config).
Proof.
  intros w0 w1 w.
  pose proof (history_since_construction config fresh_id0 now0 h0 (before ++ later))
    as (Hcount & Hfirst & Hreset).
  cbv zeta in Hcount, Hfirst, Hreset. fold w0 in Hcount, Hfirst, Hreset.
  rewrite run_app in Hcount, Hfirst, Hreset. fold w1 w in Hcount, Hfirst, Hreset.
  split; [| split; [| split]].
  - intros Hbefore Hlater.
    assert (Hone : length (history_snapshots w1.1 w1.2) = 1%nat).
    { destruct Hbefore as [-> | (earlier & fresh_id & now & ->)].
      - pose proof (history_since_construction config fresh_id0 now0 h0 []) as (H0 & _).
        cbv zeta in H0. destruct (H0 eq_refl) as [H _]. exact H.
      - pose proof (history_since_construction config fresh_id0 now0 h0 earlier)
          as (_ & _ & Hr).
        cbv zeta in Hr. fold w0 in Hr. subst w1. rewrite run_app.
        destruct (run earlier w0) as [this_e h_e]. apply (Hr fresh_id now). }
    assert (Hinv1 : invariant config w1.1 w1.2).
    { subst w1. pose proof (constructor_invariant config fresh_id0 now0 h0) as H0.
      fold w0 in H0. destruct w0 as [this0 h0']. by apply run_invariant. }
    subst w. destruct w1 as [this1 h1]. cbn [fst snd] in *.
    destruct (history_run config later this1 h1 Hinv1 Hlater) as [Hlen _].
    rewrite Hlen, Hone. lia.
  - intros Hops. by destruct (Hcount Hops).
  - exact Hfirst.
  - exact Hreset.
Qed.

(** The click cycle: two of its calls change the state, so the history
    has three entries; after a further reset and one more transition it
    has two. *)
Lemma history_length_and_reset_witness :
  length (history_snapshots (run click_cycle world_click).1 (run click_cycle world_click).2)
    = 3%nat /\
  length (history_snapshots
            (run [OpTransition "PENDING" None "s6" 6]
                 (run (click_cycle ++ [OpReset "s5" 5]) world_click)).1
            (run [OpTransition "PENDING" None "s6" 6]
                 (run (click_cycle ++ [OpReset "s5" 5]) world_click)).2)
    = 2%nat.
Proof.
  split.
  - apply (proj1 (history_length_and_reset config_click "s0" 0 empty_heap [] click_cycle));
      [by left | reflexivity].
  - apply (proj1 (history_length_and_reset config_click "s0" 0 empty_heap
                    (click_cycle ++ [OpReset "s5" 5]) [OpTransition "PENDING" None "s6" 6]));
      [right; by exists click_cycle, "s5"%string, 5 | reflexivity].
Defined.

End history_properties.

(** ** StateMachine: what getState and getHistory hand out *)

Section copy_properties.
Import StateMachine.

(** C5, the claim as stated fails: the State object that getState
    returns shares its data map with the current state.  A caller that
    sets a property on that map changes the data of the machine's
    current state, and of the first history entry with it. *)
Lemma getState_shares_data_map :
  let this := world_click.1 in
  let returned := (getState this world_click.2).1 in
  let h := (getState this world_click.2).2 in
  let h' := mutate (WriteRecord (data (object_at h returned))
                      (JS.set "x" (JS.JNum 1) (record_at h (data (object_at h returned))))) h in
  s_data (current_snapshot this h) = [] /\
  s_data (current_snapshot this h') = [("x"%string, JS.JNum 1)] /\
  current_snapshot this h' <> current_snapshot this h /\
  history_snapshots this h' <> history_snapshots this h.
Proof.
  cbv zeta. split; [reflexivity |]. split; [reflexivity |]. split; vm_compute; discriminate.
Qed.

(** The entries of the array that getHistory returns are the State
    objects of the history themselves: renaming the first of them
    renames the first history entry. *)
Example getHistory_shares_entries :
  let this := world_click.1 in
  let returned := (getHistory this world_click.2).1 in
  let h := (getHistory this world_click.2).2 in
  let first := array_at h returned !!! 0%nat in
  let h' := mutate (WriteObject first
                      {| id := id (object_at h first); name := "RENAMED";
                         timestamp := timestamp (object_at h first);
                         data := data (object_at h first) |}) h in
  s_name <$> history_snapshots this h = ["IDLE"%string] /\
  s_name <$> history_snapshots this h' = ["RENAMED"%string].
Proof. cbv zeta. split; reflexivity. Qed.

(** Writing to a fresh State object changes no snapshot of an older one. *)
Lemma snapshot_write_object h l s l' :
  l' <> l -> snapshot (mutate (WriteObject l s) h) l' = snapshot h l'.
Proof.
  intros Hne. unfold snapshot, object_at, record_at. cbn [mutate objects records].
  by rewrite list_lookup_total_insert_ne.
Qed.

(** C5, amended: getState returns a new State object that equals the
    current one, and getHistory a new array with the entries of the
    history; the calls themselves change neither the current state nor
    the history, and no assignment to the fields of the returned State
    object, and no change of the returned array (adding, removing or
    replacing entries), changes the machine's current state or its
    history. *)
Theorem getState_getHistory_fresh_copies
    (config : IStateConfig.t) (fresh_id0 : string) (now0 : Z) (h0 : Heap) (ops : list Op) :
  let w := run ops (constructor config fresh_id0 now0 h0) in
  let this := w.1 in
  let h := w.2 in
  (let returned := (getState this h).1 in
   let h1 := (getState this h).2 in
   object_at h1 returned = object_at h (current this) /\
   returned <> current this /\
   current_snapshot this h1 = current_snapshot this h /\
   history_snapshots this h1 = history_snapshots this h /\
   forall s : IState,
     current_snapshot this (mutate (WriteObject returned s) h1) = current_snapshot this h /\
     history_snapshots this (mutate (WriteObject returned s) h1) = history_snapshots this h) /\
  (let returned := (getHistory this h).1 in
   let h1 := (getHistory this h).2 in
   array_at h1 returned = array_at h (history this) /\
   returned <> history this /\
   current_snapshot this h1 = current_snapshot this h /\
   history_snapshots this h1 = history_snapshots this h /\
   forall a : list loc,
     current_snapshot this (mutate (WriteArray returned a) h1) = current_snapshot this h /\
     history_snapshots this (mutate (WriteArray returned a) h1) = history_snapshots this h).
Proof.
  intros w this h.
  assert (Hinv : invariant config this h).
  { subst this h w. pose proof (constructor_invariant config fresh_id0 now0 h0) as H0.
    destruct (constructor config fresh_id0 now0 h0) as [this0 h0'].
    by apply run_invariant. }
  destruct Hinv as [_ _ Hc Hh He _ _].
  assert (Hobj : forall l, (l < length (objects h))%nat ->
                 snapshot (getState this h).2 l = snapshot h l).
  { intros l Hl. unfold snapshot, getState, object_at, record_at. cbn [alloc_object snd objects records].
    by rewrite lookup_total_app_l. }
  assert (Hhist : history_snapshots this (getState this h).2 = history_snapshots this h).
  { unfold history_snapshots. unfold getState at 2. unfold array_at at 1. cbn [alloc_object snd arrays].
    fold (array_at h (history this)).
    apply Forall_fmap_ext. eapply Forall_impl; [exact He |]. exact Hobj. }
  split.
  - cbv zeta. split; [apply object_at_alloc_new |].
    split; [unfold getState; cbn [alloc_object fst]; lia |].
    split; [by apply Hobj |]. split; [exact Hhist |].
    intros s. split.
    + unfold current_snapshot. rewrite snapshot_write_object; [by apply Hobj |].
      unfold getState. cbn [alloc_object fst]. lia.
    + rewrite <- Hhist. unfold history_snapshots.
      unfold array_at. cbn [mutate arrays]. fold (array_at (getState this h).2 (history this)).
      apply Forall_fmap_ext.
      assert (array_at (getState this h).2 (history this) = array_at h (history this)) as ->
        by done.
      eapply Forall_impl; [exact He |]. intros l Hl. cbv beta in *.
      apply snapshot_write_object. unfold getState. cbn [alloc_object fst]. lia.
  - cbv zeta. split; [apply array_at_alloc_new |].
    split; [unfold getHistory; cbn [alloc_array fst]; lia |].
    assert (Harr : forall a, array_at (mutate (WriteArray (getHistory this h).1 a)
                                         (getHistory this h).2) (history this)
                             = array_at h (history this)).
    { intros a. unfold array_at, getHistory. cbn [mutate alloc_array fst snd arrays].
      rewrite list_lookup_total_insert_ne by lia. by rewrite lookup_total_app_l. }
    split; [done |]. split.
    + unfold history_snapshots, getHistory. by rewrite array_at_alloc_old.
    + intros a. split; [done |]. unfold history_snapshots. by rewrite Harr.
Qed.

(** After the click cycle: overwriting the name of the State object that
    getState returned, and emptying the array that getHistory returned,
    leave the machine in VERIFIED with its three history entries. *)
Lemma getState_getHistory_fresh_copies_witness :
  let this := (run click_cycle world_click).1 in
  let h := (run click_cycle world_click).2 in
  s_name (current_snapshot this
            (mutate (WriteObject (getState this h).1
                       {| id := "x"; name := "HACKED"; timestamp := 0; data := 0%nat |})
                    (getState this h).2)) = "VERIFIED"%string /\
  length (history_snapshots this
            (mutate (WriteArray (getHistory this h).1 []) (getHistory this h).2)) = 3%nat.
Proof.
  pose proof (getState_getHistory_fresh_copies config_click "s0" 0 empty_heap click_cycle)
    as [Hstate Hhistory].
  cbv zeta in *.
  destruct Hstate as (_ & _ & _ & _ & Hwrite).
  destruct Hhistory as (_ & _ & _ & _ & Harray).
  split.
  - rewrite (proj1 (Hwrite _)). reflexivity.
  - rewrite (proj2 (Harray _)). reflexivity.
Defined.

End copy_properties.

(** ** DeceptionHunter: getConfidence and runFullAnalysis *)

Section confidence_properties.
Import DeceptionHunter.

Lemma total_penalty_nonneg ps : 0 <= total_penalty ps.
Proof.
  induction ps as [| p ps IH]; simpl; [lia |].
  unfold severity_penalty. destruct (severity p); lia.
Qed.

Lemma total_penalty_zero ps : total_penalty ps = 0 <-> ps = [].
Proof.
  split; [| by intros ->].
  destruct ps as [| p ps]; [done |]. simpl.
  pose proof (total_penalty_nonneg ps). unfold severity_penalty.
  destruct (severity p); lia.
Qed.

(** The loop of [getConfidence] subtracts the penalties one by one. *)
Lemma getConfidence_total_penalty ms cv :
  getConfidence ms cv =
    if verified cv then Z.max 0 (100 - total_penalty ms) else 0.
Proof.
  unfold getConfidence. destruct (verified cv); simpl; [| done]. f_equal.
  generalize 100. induction ms as [| p ms IH]; intros acc; simpl; [lia |].
  rewrite IH. unfold severity_penalty. destruct (severity p); lia.
Qed.

(** X1: getConfidence is an integer between 0 and 100; it is 0 whenever
    the click is not verified, and 100 exactly when the click is verified
    and no pattern matched; a verified click keeps a positive confidence
    exactly while the penalties of the matched patterns (low 10, medium
    30, high 50) sum to less than 100. *)
Theorem getConfidence_range (ms : list IDeceptionHunterPattern) (cv : IClickVerification) :
  0 <= getConfidence ms cv <= 100 /\
  (verified cv = false -> getConfidence ms cv = 0) /\
  (getConfidence ms cv = 100 <-> verified cv = true /\ ms = []) /\
  (0 < getConfidence ms cv <-> verified cv = true /\ total_penalty ms < 100).
Proof.
  rewrite getConfidence_total_penalty.
  pose proof (total_penalty_nonneg ms) as Hnn.
  pose proof (total_penalty_zero ms) as Hz.
  destruct (verified cv).
  - split; [lia |]. split; [discriminate |]. split; split.
    + intros H. split; [done |]. apply Hz. lia.
    + intros [_ Hnil]. apply Hz in Hnil. lia.
    + intros H. split; [done | lia].
    + intros [_ H]. lia.
  - split; [lia |]. split; [done |]. split; split.
    + lia.
    + intros [H _]. discriminate.
    + lia.
    + intros [H _]. discriminate.
Qed.

Lemma getConfidence_range_witness :
  getConfidence [mkPattern "HONEYPOT" "/honeypot|trap|decoy|fake/i" medium]
    click_unchanged = 0 /\
  0 < getConfidence [mkPattern "HONEYPOT" "/honeypot|trap|decoy|fake/i" medium]
        click_reordered.
Proof.
  split.
  - apply (proj1 (proj2 (getConfidence_range _ _))). reflexivity.
  - apply (proj2 (proj2 (proj2 (getConfidence_range _ _)))). split; [reflexivity |].
    simpl. lia.
Defined.

(** X2: getConfidence does not depend on the order of the matched
    patterns, and more matched patterns never raise it. *)
Theorem getConfidence_order_and_growth
    (ms : list IDeceptionHunterPattern) (cv : IClickVerification) :
  (forall ms', ms ≡ₚ ms' -> getConfidence ms' cv = getConfidence ms cv) /\
  (forall more, getConfidence (ms ++ more) cv <= getConfidence ms cv).
Proof.
  split.
  - intros ms' Hperm. rewrite !getConfidence_total_penalty.
    cut (total_penalty ms = total_penalty ms'); [by intros -> |].
    induction Hperm as [| p l l' _ IH | p q l | l l' l'' _ IH1 _ IH2]; simpl; lia.
  - intros more. rewrite !getConfidence_total_penalty.
    assert (total_penalty (ms ++ more) = total_penalty ms + total_penalty more) as ->.
    { induction ms as [| p ms IH]; simpl; lia. }
    pose proof (total_penalty_nonneg more). destruct (verified cv); lia.
Qed.

Lemma getConfidence_order_and_growth_witness :
  getConfidence [mkPattern "B" "/b/" high; mkPattern "A" "/a/" low] click_reordered
  = getConfidence [mkPattern "A" "/a/" low; mkPattern "B" "/b/" high] click_reordered.
Proof.
  apply (proj1 (getConfidence_order_and_growth _ _)). apply Permutation_swap.
Defined.

Context {engine : RegExpEngine} {format : JS.NumberFormat}.


End confidence_properties.


(** ** Rules written as "/source/flags", and the two analyze methods *)

Section literal_properties.
Import RegexLiteral.

Lemma split_last_slash_None s : split_last_slash s = None <-> no_slash s = true.
Proof.
  unfold no_slash. induction s as [| c s IH]; simpl; [done |].
  destruct (split_last_slash s) as [[a b] |].
  - split; [discriminate |]. intros [_ H]%andb_true_iff. apply IH in H. discriminate.
  - destruct (Ascii.eqb c slash); simpl; [split; discriminate |].
    split; [intros _; by apply IH | done].
Qed.

Lemma split_last_slash_Some s a b :
  split_last_slash s = Some (a, b) <->
  s = String.append a (String slash b) /\ no_slash b = true.
Proof.
  revert a. induction s as [| c s IH]; intros a; simpl.
  - split; [discriminate |]. intros [H _]. by destruct a.
  - destruct (split_last_slash s) as [[a' b'] |] eqn:Hs.
    + split.
      * intros [= <- <-]. destruct (proj1 (IH a') eq_refl) as [-> Hb]. by split.
      * intros [Heq Hb]. destruct a as [| c' a]; simpl in Heq.
        -- injection Heq as -> ->. apply split_last_slash_None in Hb. congruence.
        -- injection Heq as -> Heq.
           pose proof (proj2 (IH a) (conj Heq Hb)) as [= -> ->]. done.
    + pose proof (proj1 (split_last_slash_None s) Hs) as Hno.
      destruct (Ascii.eqb_spec c slash) as [-> | Hne].
      * split.
        -- intros [= <- <-]. by split.
        -- intros [Heq Hb]. destruct a as [| c' a]; simpl in Heq.
           ++ by injection Heq as ->.
           ++ injection Heq as <- Heq. by pose proof (proj2 (IH a) (conj Heq Hb)).
      * split; [discriminate |]. intros [Heq Hb]. exfalso.
        destruct a as [| c' a]; simpl in Heq.
        -- injection Heq as -> _. done.
        -- injection Heq as -> Heq. by pose proof (proj2 (IH a) (conj Heq Hb)).
Qed.

Lemma flags_no_slash cls flags :
  in_class cls slash = false ->
  forallb_string (in_class cls) flags = true -> no_slash flags = true.
Proof.
  intros Hcls. unfold no_slash. induction flags as [| c flags IH]; simpl; [done |].
  intros [Hc Hrest]%andb_true_iff. rewrite IH by done. rewrite andb_true_r.
  destruct (Ascii.eqb_spec c slash) as [-> | _]; [congruence | done].
Qed.

(** What [match_literal] accepts, and the groups it returns. *)
Lemma match_literal_accepts
    (nonempty : bool) (flag_class s source flags : string) :
  in_class flag_class slash = false ->
  match_literal nonempty flag_class s = Some (source, flags) <->
  s = String slash (String.append source (String slash flags)) /\
  forallb_string (fun d => negb (is_line_terminator d)) source = true /\
  forallb_string (in_class flag_class) flags = true /\
  (nonempty = true -> source <> EmptyString).
Proof.
  intros Hcls. unfold match_literal. split.
  - destruct s as [| c rest]; [discriminate |].
    destruct (Ascii.eqb_spec c slash) as [-> | _]; [| discriminate].
    destruct (split_last_slash rest) as [[a b] |] eqn:Hsplit; [| discriminate].
    destruct (_ && _ && _) eqn:Hcond; [| discriminate]. intros [= <- <-].
    apply split_last_slash_Some in Hsplit as [-> _].
    apply andb_true_iff in Hcond as [[Hsrc Hfl]%andb_true_iff Hne].
    split; [done |]. split; [done |]. split; [done |].
    intros ->. simpl in Hne. intros ->. discriminate.
  - intros (-> & Hsrc & Hfl & Hne).
    rewrite Ascii.eqb_refl.
    assert (split_last_slash (String.append source (String slash flags)) = Some (source, flags))
      as -> by (apply split_last_slash_Some; split; [done | by eapply flags_no_slash]).
    rewrite Hsrc, Hfl. simpl.
    destruct nonempty; simpl; [| done].
    destruct source; [by destruct Hne | done].
Qed.

(** X4: a rule string is accepted exactly when it is a '/', a source
    without line terminator, a '/' and flags of the class (the source
    non-empty where the expression asks for it), and the groups are that
    source and those flags.  The source may itself contain a '/': the
    string is split at its last one. *)
Theorem match_literal_round_trip
    (nonempty : bool) (flag_class s source flags : string) :
  in_class flag_class slash = false ->
  match_literal nonempty flag_class s = Some (source, flags) <->
  s = String slash (String.append source (String slash flags)) /\
  forallb_string (fun d => negb (is_line_terminator d)) source = true /\
  forallb_string (in_class flag_class) flags = true /\
  (nonempty = true -> source <> EmptyString).
Proof. exact (match_literal_accepts nonempty flag_class s source flags). Qed.

Lemma match_literal_round_trip_witness :
  match_literal false "gimsuy" "/a/b/gi" = Some ("a/b", "gi")%string.
Proof.
  apply (match_literal_round_trip false "gimsuy" "/a/b/gi" "a/b" "gi"); [reflexivity |].
  repeat split. discriminate.
Defined.

End literal_properties.

Section analyze_agreement.
Context {engine : RegExpEngine} {rt : MLRuntime}.
Import RegexLiteral.

(** The flags MLDeceptionHunter accepts are flags DeceptionHunter accepts. *)
Lemma ml_flags_accepted flags :
  forallb_string (in_class "gimuy") flags = true ->
  forallb_string (in_class "gimsuy") flags = true.
Proof.
  induction flags as [| c flags IH]; simpl; [done |].
  intros [Hc Hrest]%andb_true_iff. rewrite IH by done. rewrite andb_true_r.
  unfold in_class in *. simpl in *.
  destruct (Ascii.eqb c "g"), (Ascii.eqb c "i"), (Ascii.eqb c "m"),
           (Ascii.eqb c "u"), (Ascii.eqb c "y"), (Ascii.eqb c "s"); simpl in *; done.
Qed.

(** X5: every rule string that MLDeceptionHunter.analyze accepts is
    accepted by DeceptionHunter.analyze with the same source and flags;
    and on a list of patterns whose rules are all written in the syntax
    MLDeceptionHunter accepts and all compile, the two analyze methods
    return the same patterns. *)
Theorem analyze_backward_compatible
    (dh : DeceptionHunter.t) (ml : MLDeceptionHunter.t) (page_content : string) :
  (forall s source flags,
      match_literal true "gimuy" s = Some (source, flags) ->
      match_literal false "gimsuy" s = Some (source, flags)) /\
  (DeceptionHunter.patterns dh = MLDeceptionHunter.baseHunterPatterns ml ->
   Forall (fun p => is_Some (match_literal true "gimuy" (regex p)))
          (DeceptionHunter.patterns dh) ->
   Forall (fun p => DeceptionHunter.rule_throws p = false) (DeceptionHunter.patterns dh) ->
   DeceptionHunter.analyze dh page_content = Ok (MLDeceptionHunter.analyze ml page_content)).
Proof.
  assert (Hsub : forall s source flags,
      match_literal true "gimuy" s = Some (source, flags) ->
      match_literal false "gimsuy" s = Some (source, flags)).
  { intros s source flags H.
    apply (match_literal_accepts true "gimuy") in H as (-> & Hsrc & Hfl & _); [| done].
    apply (match_literal_accepts false "gimsuy"); [done |].
    split; [done |]. split; [done |]. split; [by apply ml_flags_accepted | done]. }
  split; [exact Hsub |].
  intros Hps Hsyntax Hok.
  rewrite DeceptionHunter_analyze_registration_order by done.
  rewrite MLDeceptionHunter_analyze_registration_order, <- Hps. f_equal. clear Hps.
  induction Hsyntax as [| p ps [[source flags] Hp] _ IH]; [done |].
  apply Forall_cons in Hok as [_ Hok].
  assert (DeceptionHunter.rule_matches p page_content
          = MLDeceptionHunter.rule_matches p page_content) as Heq.
  { unfold DeceptionHunter.rule_matches, MLDeceptionHunter.rule_matches.
    by rewrite Hp, (Hsub _ _ _ Hp). }
  rewrite !filter_cons, Heq, (IH Hok). done.
Qed.

End analyze_agreement.

(** A new DeceptionHunter and a new MLDeceptionHunter find the same
    pattern in the markup of the test suite. *)
Lemma analyze_backward_compatible_witness :
  @DeceptionHunter.analyze LiteralEngine.engine DeceptionHunter.constructor captcha_button
  = Ok (@MLDeceptionHunter.analyze LiteralEngine.engine ConstantRuntime.runtime
          MLDeceptionHunter.constructor captcha_button).
Proof.
  apply (proj2 (@analyze_backward_compatible LiteralEngine.engine ConstantRuntime.runtime
                  DeceptionHunter.constructor MLDeceptionHunter.constructor captcha_button)).
  - reflexivity.
  - repeat constructor; by eexists.
  - repeat constructor.
Defined.

(** ** EnsembleModel.calculateHybridScore and verifyClick, further *)

Section score_properties.

(** X6: the hybrid score lies between its two arguments, and it grows
    with each of them; in particular two scores in [0,100] give a hybrid
    score in [0,100]. *)
Theorem calculateHybridScore_between (regexScore mlScore : number) :
  (Qmin regexScore mlScore <= EnsembleModel.calculateHybridScore regexScore mlScore
     <= Qmax regexScore mlScore)%Q /\
  (forall regexScore' mlScore' : number,
      (regexScore <= regexScore')%Q -> (mlScore <= mlScore')%Q ->
      (EnsembleModel.calculateHybridScore regexScore mlScore
         <= EnsembleModel.calculateHybridScore regexScore' mlScore')%Q).
Proof.
  unfold EnsembleModel.calculateHybridScore. split.
  - destruct (Q.min_spec regexScore mlScore) as [[H1 E1] | [H1 E1]],
             (Q.max_spec regexScore mlScore) as [[H2 E2] | [H2 E2]];
      rewrite E1, E2; split; lra.
  - intros r' m' Hr Hm. lra.
Qed.

Lemma calculateHybridScore_between_witness :
  (EnsembleModel.calculateHybridScore 75%Q 85%Q
     <= EnsembleModel.calculateHybridScore 80%Q 85%Q)%Q.
Proof.
  apply (proj2 (calculateHybridScore_between 75%Q 85%Q) 80%Q 85%Q); discriminate.
Defined.

Context {format : JS.NumberFormat}.

(** X7: verifyClick does not depend on the direction of the comparison:
    swapping the two snapshots gives the same verified flag and the same
    confidence, or the same exception. *)
Theorem verifyClick_symmetric (before after : JS.record) :
  match DeceptionHunter.verifyClick after before,
        DeceptionHunter.verifyClick before after with
  | Ok swapped, Ok r =>
      DeceptionHunter.verified swapped = DeceptionHunter.verified r /\
      DeceptionHunter.confidence swapped = DeceptionHunter.confidence r
  | Throw e', Throw e => e' = e
  | _, _ => False
  end.
Proof.
  unfold DeceptionHunter.verifyClick, JS.strict_neq. cbv zeta.
  rewrite (strict_eq_sym (JS.get after "url")),
          (andb_comm (JS.ToString_returns (JS.get after "url"))).
  pose proof (JSON_stringify_outcome before) as Hb.
  pose proof (JSON_stringify_outcome after) as Ha.
  destruct (if negb _ then _ else _) as [verified | e]; [| done].
  destruct (JS.JSON_stringify before) as [beforeStr | eb],
           (JS.JSON_stringify after) as [afterStr | ea];
    cbn [JS.stringify_outcome] in Ha, Hb.
  - cbn [DeceptionHunter.verified DeceptionHunter.confidence].
    by rewrite (String.eqb_sym afterStr).
  - done.
  - done.
  - destruct Ha as [Ha _], Hb as [Hb _]. congruence.
Qed.

End score_properties.

(** ** MLDeceptionHunter.analyzeWithML: the range of its scores *)

Section analyzeWithML_bounds.
Context {engine : RegExpEngine} {rt : MLRuntime}.
Import MLDeceptionHunter.

Lemma total_weight_nonneg ps : 0 <= total_weight ps.
Proof.
  induction ps as [| p ps IH]; simpl; [lia |].
  unfold severity_weight. destruct (severity p); lia.
Qed.

(** What a ready hunter returns, in terms of the answer of its ensemble. *)
Lemma analyzeWithML_ready_result this page_content interaction_history :
  reachable this ->
  mlEnabled this = true ->
  Forall (fun interaction => MLPreprocessor.numeric_action (action interaction))
         interaction_history ->
  exists meta calls result cnnScore lstmScore,
    ensemble this = Some {| EnsembleModel.metaLearner := Some meta;
                            EnsembleModel.isInitialized := true |} /\
    analyzeWithML this page_content interaction_history = (calls, Ok result) /\
    let regexScore := inject_Z (analyzeRegex this page_content) in
    let mlScore := meta_forward meta cnnScore lstmScore (regexScore / 100)%Q in
    regex_score result = regexScore /\
    ml_score result = (mlScore * 100)%Q /\
    final_score result = (regexScore * 0.40 + mlScore * 100 * 0.60)%Q /\
    confidence result = Math_min 1.0%Q (final_score result / 100)%Q /\
    verdict result = EnsembleModel.getVerdict (confidence result).
Proof.
  intros Hreach Hon Hnum.
  destruct (reachable_ready this Hreach Hon) as (cnn & lstm & meta & Hc & Hl & He).
  assert (Htensor :
    MLPreprocessor.sequenceFromInteractions (preprocessor this) interaction_history
      = Ok (MLPreprocessor.number_rows (preprocessor this) interaction_history)).
  { apply sequenceFromInteractions_numeric;
      rewrite (reachable_preprocessor this Hreach); [done | by apply Forall_take]. }
  exists meta. unfold analyzeWithML. rewrite Hon, Hc, Hl, He.
  destruct interaction_history as [| i rest];
    [| cbn [negb length Nat.ltb Nat.leb]; rewrite Htensor]; cbn;
    (do 4 eexists; split; [reflexivity |]; split; [reflexivity |];
     cbn [regex_score ml_score final_score confidence verdict]; by repeat split).
Qed.

(** X8: for a ready hunter whose ensemble answers with a probability in
    [0,1], and a history none of whose actions is the name of a property
    of Object.prototype, analyzeWithML returns with regex_score, ml_score
    and final_score in [0,100],
    final_score = regex_score*0.40 + ml_score*0.60, and
    confidence = final_score/100 in [0,1]; the verdict is HIGH_THREAT
    exactly when final_score is at least 70 and SAFE exactly when it is
    below 20. *)
Theorem analyzeWithML_score_ranges (this : t) (page_content : string)
    (interaction_history : list Interaction) :
  reachable this ->
  mlEnabled this = true ->
  (forall meta, ensemble this = Some {| EnsembleModel.metaLearner := Some meta;
                                        EnsembleModel.isInitialized := true |} ->
                forall a b c, (0 <= meta_forward meta a b c <= 1)%Q) ->
  Forall (fun interaction => MLPreprocessor.numeric_action (action interaction))
         interaction_history ->
  exists calls result,
    analyzeWithML this page_content interaction_history = (calls, Ok result) /\
    (0 <= regex_score result <= 100)%Q /\
    (0 <= ml_score result <= 100)%Q /\
    (0 <= final_score result <= 100)%Q /\
    (final_score result == regex_score result * 0.40 + ml_score result * 0.60)%Q /\
    (confidence result == final_score result / 100)%Q /\
    (0 <= confidence result <= 1)%Q /\
    (verdict result = EnsembleModel.HIGH_THREAT <-> (70 <= final_score result)%Q) /\
    (verdict result = EnsembleModel.SAFE <-> (final_score result < 20)%Q).
Proof.
  intros Hreach Hon Hprob Hnum.
  destruct (analyzeWithML_ready_result this page_content interaction_history Hreach Hon Hnum)
    as (meta & calls & result & cnnScore & lstmScore & He & Hrun & Hres).
  cbv zeta in Hres. destruct Hres as (Hregex & Hml & Hfinal & Hconf & Hverdict).
  exists calls, result. split; [exact Hrun |].
  pose proof (Hprob meta He cnnScore lstmScore
                (inject_Z (analyzeRegex this page_content) / 100)%Q) as Hp.
  set (p := meta_forward meta cnnScore lstmScore
              (inject_Z (analyzeRegex this page_content) / 100)%Q) in *.
  assert (Hr : (0 <= inject_Z (analyzeRegex this page_content) <= 100)%Q).
  { rewrite analyzeRegex_capped_sum.
    pose proof (total_weight_nonneg (analyze this page_content)).
    split.
    - change 0%Q with (inject_Z 0). rewrite <- Zle_Qle. lia.
    - change 100%Q with (inject_Z 100). rewrite <- Zle_Qle. lia. }
  set (r := inject_Z (analyzeRegex this page_content)) in *.
  assert (Hf : (0 <= final_score result <= 100)%Q) by (rewrite Hfinal; lra).
  assert (Hc : (confidence result == final_score result / 100)%Q).
  { rewrite Hconf, Math_min_one.
    destruct (Q.min_spec 1 (final_score result / 100)) as [[H E] | [H E]];
      rewrite E; [| reflexivity].
    exfalso. assert (final_score result / 100 <= 1)%Q; [| lra].
    apply Qle_shift_div_r; lra. }
  assert (Hc01 : (0 <= confidence result <= 1)%Q).
  { rewrite Hc. split.
    - apply Qle_shift_div_l; lra.
    - apply Qle_shift_div_r; lra. }
  assert (Hscale : (final_score result == confidence result * 100)%Q).
  { rewrite Hc, Qmult_comm, Qmult_div_r; [reflexivity | lra]. }
  split; [by rewrite Hregex |]. split; [rewrite Hml; lra |]. split; [exact Hf |].
  split; [rewrite Hfinal, Hregex, Hml; lra |]. split; [exact Hc |]. split; [exact Hc01 |].
  rewrite Hverdict. unfold EnsembleModel.getVerdict. split.
  - destruct (Qltb (confidence result) 0.2) eqn:E1.
    { apply Qltb_lt in E1. split; [discriminate | intros; lra]. }
    destruct (Qltb (confidence result) 0.4) eqn:E2.
    { apply Qltb_lt in E2. split; [discriminate | intros; lra]. }
    destruct (Qltb (confidence result) 0.7) eqn:E3.
    { apply Qltb_lt in E3. split; [discriminate | intros; lra]. }
    apply Qltb_ge in E3. split; [intros _; lra | done].
  - destruct (Qltb (confidence result) 0.2) eqn:E1.
    { apply Qltb_lt in E1. split; [intros _; lra | done]. }
    apply Qltb_ge in E1.
    destruct (Qltb (confidence result) 0.4); [split; [discriminate | intros; lra] |].
    destruct (Qltb (confidence result) 0.7); split; try discriminate; intros; lra.
Qed.

End analyzeWithML_bounds.

Lemma analyzeWithML_score_ranges_witness :
  exists calls result,
    @MLDeceptionHunter.analyzeWithML LiteralEngine.engine ConstantRuntime.runtime
      ready_hunter captcha_button one_click = (calls, Ok result) /\
    (0 <= MLDeceptionHunter.final_score result <= 100)%Q /\
    (0 <= MLDeceptionHunter.confidence result <= 1)%Q.
Proof.
  destruct (@analyzeWithML_score_ranges LiteralEngine.engine ConstantRuntime.runtime
              ready_hunter captcha_button one_click)
    as (calls & result & Hrun & _ & _ & Hfinal & _ & _ & Hconf & _).
  - apply MLDeceptionHunter.reachable_initializeML, MLDeceptionHunter.reachable_new.
  - reflexivity.
  - intros meta [= <-] a b c. split; discriminate.
  - apply List.Forall_cons; [| apply List.Forall_nil].
    unfold MLPreprocessor.numeric_action, JS.Object_prototype_properties. cbn [action].
    intros Hin. repeat (apply elem_of_cons in Hin as [[=] | Hin]).
    by apply elem_of_nil in Hin.
  - exists calls, result. split; [exact Hrun |]. split; [exact Hfinal | exact Hconf].
Defined.

(** ** MLPreprocessor: the tensors and the numbering of the vocabulary *)

Section tensor_properties.
Import MLPreprocessor.

(** X9: for a sequence length that is not negative,
    sequenceFromInteractions hands tf.tensor2d exactly sequenceLength
    rows of four entries.  Row i holds, for the i-th record when there is
    one, the feature of its action, x/1000, y/1000 and the confidence
    (absent ones counting 0), and zeros otherwise; records beyond the
    first sequenceLength are not looked at.  The feature of an action is
    1.0 for CLICK and SUBMIT, 0.5 for HOVER, 0.3 for SCROLL, 0.7 for
    INPUT, the value inherited from Object.prototype for an action that
    is the name of one of its properties, and 0.1 for any other action.
    When no action among the first sequenceLength is such a name, the
    result is the tensor of these rows. *)
Theorem sequenceFromInteractions_rows `{MLRuntime} (this : t)
    (interactions : list Interaction) :
  0 <= sequenceLength this ->
  let n := Z.to_nat (sequenceLength this) in
  (actionToFeature "CLICK" = FNumber 1.0%Q /\
   actionToFeature "SUBMIT" = FNumber 1.0%Q /\
   actionToFeature "HOVER" = FNumber 0.5%Q /\
   actionToFeature "SCROLL" = FNumber 0.3%Q /\
   actionToFeature "INPUT" = FNumber 0.7%Q /\
   (forall action, action ∈ JS.Object_prototype_properties ->
                   actionToFeature action = FInherited action) /\
   (forall action,
      action ∉ ["CLICK"; "SUBMIT"; "HOVER"; "SCROLL"; "INPUT"]%string ->
      action ∉ JS.Object_prototype_properties ->
      actionToFeature action = FNumber 0.1%Q)) /\
  sequenceFromInteractions this interactions
    = tensor2d (features this interactions) (sequenceLength this) 4 /\
  length (features this interactions) = n /\
  (forall i, (i < n)%nat ->
     features this interactions !! i =
       Some (match interactions !! i with
             | Some interaction =>
                 [ actionToFeature (action interaction);
                   FNumber (default 0%Q (x interaction) / 1000)%Q;
                   FNumber (default 0%Q (y interaction) / 1000)%Q;
                   FNumber (default 0%Q (metadata_confidence interaction)) ]
             | None => [FNumber 0%Q; FNumber 0%Q; FNumber 0%Q; FNumber 0%Q]
             end)) /\
  (forall more, (n <= length interactions)%nat ->
     features this (interactions ++ more) = features this interactions) /\
  (Forall (fun interaction => numeric_action (action interaction)) (take n interactions) ->
   exists tensor,
     sequenceFromInteractions this interactions = Ok tensor /\
     length tensor = n /\
     forall i, (i < n)%nat ->
       tensor !! i =
         Some (match interactions !! i with
               | Some interaction =>
                   [ action_weight (action interaction);
                     (default 0%Q (x interaction) / 1000)%Q;
                     (default 0%Q (y interaction) / 1000)%Q;
                     default 0%Q (metadata_confidence interaction) ]
               | None => [0; 0; 0; 0]%Q
               end)).
Proof.
  intros Hlen n.
  split.
  { do 5 (split; [reflexivity |]). split; [apply actionToFeature_inherited |].
    intros action Hlisted Hproto. unfold actionToFeature.
    destruct (String.eqb_spec action "CLICK") as [-> | _];
      [exfalso; apply Hlisted; set_solver |].
    destruct (String.eqb_spec action "HOVER") as [-> | _];
      [exfalso; apply Hlisted; set_solver |].
    destruct (String.eqb_spec action "SCROLL") as [-> | _];
      [exfalso; apply Hlisted; set_solver |].
    destruct (String.eqb_spec action "INPUT") as [-> | _];
      [exfalso; apply Hlisted; set_solver |].
    destruct (String.eqb_spec action "SUBMIT") as [-> | _];
      [exfalso; apply Hlisted; set_solver |].
    destruct (String.eqb action "UNKNOWN"); [done |].
    by rewrite bool_decide_eq_false_2. }
  split; [reflexivity |].
  assert (Hrows : forall i, (i < n)%nat ->
    number_rows this interactions !! i =
      Some (match interactions !! i with
            | Some interaction => number_row interaction
            | None => zero_numbers
            end)).
  { intros i Hi. unfold number_rows. cbv zeta. fold n. clearbody n.
    destruct (interactions !! i) as [r |] eqn:Hr.
    - pose proof (lookup_lt_Some _ _ _ Hr) as Hlt.
      rewrite lookup_app_l by (rewrite length_fmap, length_take; lia).
      by rewrite list_lookup_fmap, lookup_take_lt, Hr.
    - apply lookup_ge_None in Hr.
      rewrite lookup_app_r by (rewrite length_fmap, length_take; lia).
      rewrite length_fmap. apply lookup_replicate_2. rewrite length_take. lia. }
  assert (Hnumeric :
    Forall (fun interaction => numeric_action (action interaction)) (take n interactions) ->
    sequenceFromInteractions this interactions = Ok (number_rows this interactions) /\
    length (number_rows this interactions) = n).
  { intros Hnum. split; [by apply sequenceFromInteractions_numeric |].
    apply number_rows_length. }
  unfold features. cbv zeta. fold n. clearbody n.
  split; [| split; [| split]].
  - rewrite length_app, length_replicate, !length_fmap, !length_take. lia.
  - intros i Hi. rewrite length_fmap, length_take.
    destruct (interactions !! i) as [r |] eqn:Hr.
    + pose proof (lookup_lt_Some _ _ _ Hr) as Hlt.
      rewrite lookup_app_l by (rewrite length_fmap, length_take; lia).
      by rewrite list_lookup_fmap, lookup_take_lt, Hr.
    + apply lookup_ge_None in Hr.
      rewrite lookup_app_r by (rewrite length_fmap, length_take; lia).
      rewrite length_fmap, length_take. apply lookup_replicate_2. lia.
  - intros more Hle. by rewrite take_app_le.
  - intros Hnum. destruct (Hnumeric Hnum) as [Hrun Hlength].
    exists (number_rows this interactions).
    split; [exact Hrun |]. split; [exact Hlength |]. exact Hrows.
Qed.

(** Three rows for one click: the row of the click, then zeros. *)
Lemma sequenceFromInteractions_rows_witness :
  exists tensor,
    @sequenceFromInteractions ConstantRuntime.runtime (constructor 1000 3) one_click
      = Ok tensor /\
    length tensor = 3%nat /\
    tensor !! 0%nat = Some [1.0; (100 / 1000); (100 / 1000); 0]%Q /\
    tensor !! 1%nat = Some [0; 0; 0; 0]%Q.
Proof.
  destruct (@sequenceFromInteractions_rows ConstantRuntime.runtime (constructor 1000 3) one_click)
    as (_ & _ & _ & _ & _ & Hnum).
  - cbn. lia.
  - destruct Hnum as (tensor & Hrun & Hlen & Hrows).
    + apply List.Forall_cons; [| apply List.Forall_nil].
      unfold numeric_action, JS.Object_prototype_properties. cbn [action one_click].
      intros Hin. repeat (apply elem_of_cons in Hin as [[=] | Hin]).
      by apply elem_of_nil in Hin.
    + exists tensor. split; [exact Hrun |]. split; [exact Hlen |].
      split; [apply (Hrows 0%nat) | apply (Hrows 1%nat)]; cbn; lia.
Defined.

(** X10: for a capacity that is not negative, preprocessContent builds a
    vector of exactly vocabSize entries: entry i is the vocabulary index
    of the i-th token of the content, looked up in lower case, or 0 when
    the token is unknown or the content has fewer tokens; so every entry
    is 0 or an index of the vocabulary. *)
Theorem preprocessContent_entries `{MLRuntime} (this : t) (htmlContent : string) :
  0 <= vocabSize this ->
  length (preprocessContent this htmlContent) = Z.to_nat (vocabSize this) /\
  (forall i, (i < Z.to_nat (vocabSize this))%nat ->
     preprocessContent this htmlContent !! i =
       Some (inject_Z
               (match html_tokens htmlContent !! i with
                | Some token => default 0 (vocab this !! toLowerCase token)
                | None => 0
                end))) /\
  (forall entry, entry ∈ preprocessContent this htmlContent ->
     entry = 0%Q \/ exists token idx, vocab this !! token = Some idx /\ entry = inject_Z idx).
Proof.
  intros _. unfold preprocessContent. cbv zeta.
  set (n := Z.to_nat (vocabSize this)). clearbody n.
  set (lookup := fun token : string => default 0 (vocab this !! toLowerCase token)).
  assert (Hrow : forall i, (i < n)%nat ->
    ((inject_Z <$> take n (lookup <$> html_tokens htmlContent)) ++
      replicate (n - length (take n (lookup <$> html_tokens htmlContent))) 0%Q)
      !! i =
    Some (inject_Z (match html_tokens htmlContent !! i with
                    | Some token => lookup token
                    | None => 0
                    end))).
  { intros i Hi.
    destruct (html_tokens htmlContent !! i) as [token |] eqn:Ht.
    - pose proof (lookup_lt_Some _ _ _ Ht) as Hlen.
      rewrite lookup_app_l by (rewrite length_fmap, length_take, length_fmap; lia).
      by rewrite list_lookup_fmap, lookup_take_lt, list_lookup_fmap, Ht.
    - apply lookup_ge_None in Ht.
      rewrite lookup_app_r by (rewrite length_fmap, length_take, length_fmap; lia).
      rewrite length_fmap, !length_take, !length_fmap.
      change (inject_Z 0) with 0%Q. apply lookup_replicate_2. lia. }
  assert (Hlen : length ((inject_Z <$> take n (lookup <$> html_tokens htmlContent)) ++
      replicate (n - length (take n (lookup <$> html_tokens htmlContent))) 0%Q) = n).
  { rewrite length_app, length_replicate, length_fmap, !length_take, !length_fmap. lia. }
  split; [exact Hlen |]. split; [exact Hrow |].
  intros entry [i Hi]%list_elem_of_lookup.
  assert (i < n)%nat as Hin by (rewrite <- Hlen; by eapply lookup_lt_Some).
  rewrite (Hrow i Hin) in Hi. injection Hi as <-.
  destruct (html_tokens htmlContent !! i) as [token |]; [| by left].
  unfold lookup. destruct (vocab this !! toLowerCase token) as [idx |] eqn:Hidx; [| by left].
  right. by exists (toLowerCase token), idx.
Qed.

End tensor_properties.

Lemma preprocessContent_entries_witness :
  length (@MLPreprocessor.preprocessContent ConstantRuntime.runtime
            (MLPreprocessor.constructor 35 100) captcha_button) = 35%nat.
Proof.
  destruct (@preprocessContent_entries ConstantRuntime.runtime
              (MLPreprocessor.constructor 35 100) captcha_button) as (Hlen & _).
  - cbn. lia.
  - exact Hlen.
Defined.

Section numbering_properties.
Import MLPreprocessor.

Lemma toLowerCase_char_idempotent c :
  toLowerCase_char (toLowerCase_char c) = toLowerCase_char c.
Proof. by destruct c as [[] [] [] [] [] [] [] []]. Qed.

Lemma toLowerCase_idempotent s : toLowerCase (toLowerCase s) = toLowerCase s.
Proof.
  induction s as [| c s IH]; simpl; [done |].
  by rewrite IH, toLowerCase_char_idempotent.
Qed.

(** Distinct elements of a list are told apart by a function whose
    images along the list are distinct. *)
Lemma NoDup_fmap_apart {A B} (f : A -> B) (l : list A) (a b : A) :
  NoDup (f <$> l) -> a ∈ l -> b ∈ l -> f a = f b -> a = b.
Proof.
  induction l as [| c l IH]; simpl; [by intros _ ?%not_elem_of_nil |].
  intros [Hc Hnd]%NoDup_cons [-> | Ha]%elem_of_cons [-> | Hb]%elem_of_cons Heq.
  - done.
  - exfalso. apply Hc. rewrite Heq. by apply list_elem_of_fmap_2.
  - exfalso. apply Hc. rewrite <- Heq. by apply list_elem_of_fmap_2.
  - by apply IH.
Qed.

Lemma default_vocab_numbering : vocabulary_numbering (constructor 0 0).
Proof.
  split; [| split].
  - intros token idx Hin. rewrite default_vocab_size.
    pose proof (default_vocab_indices token idx Hin) as H. cbv beta in H. lia.
  - intros token1 token2 idx H1 H2.
    assert (Hnd : NoDup (snd <$> map_to_list (vocab (constructor 0 0)))).
    { apply (bool_decide_unpack _). vm_compute. reflexivity. }
    apply elem_of_map_to_list in H1, H2.
    by pose proof (NoDup_fmap_apart snd _ _ _ Hnd H1 H2 eq_refl) as [= ->].
  - assert (Hlow : map_Forall (fun token _ => toLowerCase token = token)
                              (vocab (constructor 0 0))).
    { apply (bool_decide_unpack _). vm_compute. reflexivity. }
    intros token idx Hin. exact (Hlow token idx Hin).
Qed.

Lemma addToken_numbering (this : t) (token : string) :
  vocabulary_numbering this -> vocabulary_numbering (addToken this token).
Proof.
  intros (Hidx & Hinj & Hlow).
  destruct (addToken_cases this token) as [[-> _] | (Hnone & _ & ->)]; [done |].
  unfold vocabulary_numbering. cbn [vocab].
  rewrite map_size_insert_None by done.
  split; [| split].
  - intros tok idx. rewrite lookup_insert. case_decide.
    + intros [= <-]. lia.
    + intros Hin. pose proof (Hidx tok idx Hin). lia.
  - intros tok1 tok2 idx. rewrite !lookup_insert.
    repeat case_decide; try congruence.
    + intros [= <-] Hin. pose proof (Hidx tok2 _ Hin). lia.
    + intros Hin [= <-]. pose proof (Hidx tok1 _ Hin). lia.
    + apply Hinj.
  - intros tok idx. rewrite lookup_insert. case_decide.
    + intros _. subst tok. apply toLowerCase_idempotent.
    + apply Hlow.
Qed.

(** X11: after the constructor and any sequence of addTokens calls, the
    vocabulary is a numbering: every index lies between 1 and the number
    of entries, no two tokens have the same index, and every key is in
    lower case. *)
Theorem vocabulary_is_numbering
    (vocabSize sequenceLength : Z) (calls : list (list string)) :
  let this :=
    foldl (fun this tokens => addTokens tokens this)
          (constructor vocabSize sequenceLength) calls in
  (forall token idx, vocab this !! token = Some idx ->
                     1 <= idx <= Z.of_nat (size (vocab this))) /\
  (forall token1 token2 idx,
      vocab this !! token1 = Some idx -> vocab this !! token2 = Some idx ->
      token1 = token2) /\
  (forall token idx, vocab this !! token = Some idx -> toLowerCase token = token).
Proof.
  cbv zeta.
  change (vocabulary_numbering
            (foldl (fun this tokens => addTokens tokens this)
                   (constructor vocabSize sequenceLength) calls)).
  assert (Hstart : vocabulary_numbering (constructor vocabSize sequenceLength)).
  { pose proof default_vocab_numbering as H0. unfold vocabulary_numbering in *.
    by rewrite (proj1 (constructor_vocab vocabSize sequenceLength)). }
  revert Hstart. generalize (constructor vocabSize sequenceLength).
  induction calls as [| tokens calls IH]; intros this Hthis; simpl; [done |].
  apply IH. unfold addTokens. revert this Hthis.
  induction tokens as [| token tokens IHt]; intros this Hthis; simpl; [done |].
  by apply IHt, addToken_numbering.
Qed.

Lemma addToken_size (this : t) (token : string) :
  MLPreprocessor.vocabSize (addToken this token) = MLPreprocessor.vocabSize this /\
  (size (vocab this) <= size (vocab (addToken this token)))%nat.
Proof.
  destruct (addToken_cases this token) as [[-> _] | (Hnone & _ & ->)]; [done |].
  cbn [vocab MLPreprocessor.vocabSize]. rewrite map_size_insert_None by done. split; [done | lia].
Qed.

Lemma addTokens_size (tokens : list string) (this : t) :
  MLPreprocessor.vocabSize (addTokens tokens this) = MLPreprocessor.vocabSize this /\
  (size (vocab this) <= size (vocab (addTokens tokens this)))%nat.
Proof.
  unfold addTokens. revert this.
  induction tokens as [| token tokens IH]; intros this; simpl; [done |].
  destruct (IH (addToken this token)) as [Hv Hs].
  destruct (addToken_size this token) as [Hv1 Hs1]. split; [congruence | lia].
Qed.

(** X12: addTokens leaves out a token only for want of room: after the
    call, every offered token has an index under its lower-cased form, or
    the vocabulary has reached its capacity; and the call never removes
    an entry. *)
Theorem addTokens_adds_or_full (tokens : list string) (this : t) :
  (forall token, token ∈ tokens ->
     is_Some (vocab (addTokens tokens this) !! toLowerCase token) \/
     MLPreprocessor.vocabSize this <= Z.of_nat (size (vocab (addTokens tokens this)))) /\
  (size (vocab this) <= size (vocab (addTokens tokens this)))%nat.
Proof.
  split; [| apply addTokens_size].
  revert this. induction tokens as [| t tokens IH]; intros this token Hin;
    [by apply not_elem_of_nil in Hin |].
  change (addTokens (t :: tokens) this) with (addTokens tokens (addToken this t)).
  apply elem_of_cons in Hin as [-> | Hin].
  - destruct (addTokens_size tokens (addToken this t)) as [_ Hgrow].
    destruct (addToken_cases this t) as [[Heq [Hfull | [idx Hidx]]] | (Hnone & Hle & Heq)].
    + right. rewrite Heq in *. lia.
    + left. rewrite Heq. exists idx. by apply addTokens_preserves.
    + left. eexists. apply addTokens_preserves. rewrite Heq. cbn [vocab].
      apply lookup_insert_eq.
  - destruct (IH (addToken this t) token Hin) as [Hsome | Hfull]; [by left |].
    right. by rewrite (proj1 (addToken_size this t)) in Hfull.
Qed.

(** A preprocessor of capacity 34 offered two new tokens: the first gets
    the index 34, the second finds the vocabulary full. *)
Lemma addTokens_adds_or_full_witness :
  vocab (addTokens ["Alpha"; "beta"]%string (constructor 34 100)) !! "alpha"%string = Some 34 /\
  vocab (addTokens ["Alpha"; "beta"]%string (constructor 34 100)) !! "beta"%string = None /\
  (is_Some (vocab (addTokens ["Alpha"; "beta"]%string (constructor 34 100))
              !! toLowerCase "beta") \/
   34 <= Z.of_nat (size (vocab (addTokens ["Alpha"; "beta"]%string (constructor 34 100))))).
Proof.
  split; [vm_compute; reflexivity |]. split; [vm_compute; reflexivity |].
  apply (proj1 (addTokens_adds_or_full ["Alpha"; "beta"]%string (constructor 34 100))
           "beta"%string).
  apply list_elem_of_further, list_elem_of_here.
Defined.

End numbering_properties.

(** ** StateMachine: failed calls, successful calls, and what stays *)

Section call_properties.
Import StateMachine.

(** X13: the four outcomes of transition.  With no own entry for the
    current state name in the transition table, it raises TypeError when
    that name is the name of a property of Object.prototype (the value
    found there has no method includes).  Otherwise it raises
    IllegalTransition when the target is not listed for the current
    state (an absent entry listing nothing), raises the InvalidStateName
    of setState when the target is listed but is not a configured state,
    and returns true when it is both. *)
Theorem transition_outcomes (to : string) (metadata : option loc) (fresh_id : string)
    (now : Z) (this : t) (h : Heap) :
  let from := name (object_at h (current this)) in
  let allowed := default [] (transitions this !! from) in
  let inherited :=
    transitions this !! from = None /\ from ∈ JS.Object_prototype_properties in
  (inherited ->
     (transition to metadata fresh_id now this h).1.1 = Throw TypeError) /\
  (~ inherited -> to ∉ allowed ->
     (transition to metadata fresh_id now this h).1.1 = Throw (IllegalTransition from to)) /\
  (to ∈ allowed -> to ∉ states this ->
     (transition to metadata fresh_id now this h).1.1 = Throw (InvalidStateName to)) /\
  (to ∈ allowed -> to ∈ states this ->
     (transition to metadata fresh_id now this h).1.1 = Ok true).
Proof.
  cbv zeta. unfold transition.
  pose proof (default_record_frame metadata h) as (Hobj & _).
  destruct (default_record metadata h) as [m h1]. cbn [snd] in Hobj.
  unfold object_at. rewrite Hobj. unfold allowed_transitions.
  destruct (transitions this !! name (objects h !!! current this)) as [allowed |];
    cbn [default].
  - split; [by intros [[=] _] |]. split; [| split].
    + intros _ Hno. by rewrite bool_decide_eq_false_2.
    + intros Hin Hout. rewrite bool_decide_eq_true_2 by done. cbn [negb].
      rewrite setState_effect. cbn [default_record].
      by rewrite bool_decide_eq_false_2.
    + intros Hin Hst. rewrite bool_decide_eq_true_2 by done. cbn [negb].
      rewrite setState_effect. cbn [default_record].
      by rewrite bool_decide_eq_true_2.
  - case_bool_decide as Hproto.
    + split; [done |]. split; [intros Hno; by destruct Hno |].
      split; by intros ?%elem_of_nil.
    + split; [by intros [_ ?] |]. split; [| split; by intros ?%elem_of_nil].
      intros _ Hno. by rewrite bool_decide_eq_false_2.
Qed.

(** In IDLE of the click configuration; and in a machine whose one
    state is named constructor. *)
Lemma transition_outcomes_witness :
  (transition "VERIFIED" None "s1" 1 world_click.1 world_click.2).1.1
    = Throw (IllegalTransition "IDLE" "VERIFIED") /\
  (transition "PENDING" None "s1" 1 world_click.1 world_click.2).1.1 = Ok true /\
  (transition "constructor" None "s1" 1 world_constructor.1 world_constructor.2).1.1
    = Throw TypeError.
Proof.
  pose proof (transition_outcomes "VERIFIED" None "s1" 1 world_click.1 world_click.2)
    as (_ & Hillegal & _).
  pose proof (transition_outcomes "PENDING" None "s1" 1 world_click.1 world_click.2)
    as (_ & _ & _ & Hlegal).
  pose proof (transition_outcomes "constructor" None "s1" 1
                world_constructor.1 world_constructor.2) as (Hproto & _).
  cbv zeta in *. split; [| split].
  - apply Hillegal.
    + intros [Hnone _]. vm_compute in Hnone. discriminate.
    + vm_compute. apply not_elem_of_cons. split; [discriminate | apply not_elem_of_nil].
  - apply Hlegal.
    + vm_compute. apply list_elem_of_here.
    + vm_compute. apply list_elem_of_further, list_elem_of_here.
  - apply Hproto. split; [reflexivity |]. apply list_elem_of_here.
Defined.

(** X14: a setState or transition call that raises changes nothing: the
    machine is the same, no State object and no array of the store is
    changed or added, and the data maps that existed are unchanged. *)
Theorem failed_call_changes_nothing (this : t) (h : Heap) :
  (forall sname sdata fresh_id now,
     let r := setState sname sdata fresh_id now this h in
     succeeds r.1.1 = false ->
     r.1.2 = this /\ objects r.2 = objects h /\ arrays r.2 = arrays h /\
     forall l, (l < length (records h))%nat -> record_at r.2 l = record_at h l) /\
  (forall to metadata fresh_id now,
     let r := transition to metadata fresh_id now this h in
     succeeds r.1.1 = false ->
     r.1.2 = this /\ objects r.2 = objects h /\ arrays r.2 = arrays h /\
     forall l, (l < length (records h))%nat -> record_at r.2 l = record_at h l).
Proof.
  assert (Hset : forall sname sdata fresh_id now,
     let r := setState sname sdata fresh_id now this h in
     succeeds r.1.1 = false ->
     r.1.2 = this /\ objects r.2 = objects h /\ arrays r.2 = arrays h /\
     forall l, (l < length (records h))%nat -> record_at r.2 l = record_at h l).
  { intros sname sdata fresh_id now. cbv zeta. rewrite setState_effect.
    pose proof (default_record_frame sdata h) as (Hobj & Harr & _ & Hrec).
    destruct (default_record sdata h) as [d h1]. cbn [snd] in *.
    case_bool_decide; cbn [fst snd succeeds]; [discriminate |]. by intros _. }
  split; [exact Hset |].
  intros to metadata fresh_id now. cbv zeta. unfold transition.
  pose proof (default_record_frame metadata h) as (Hobj & Harr & _ & Hrec).
  destruct (default_record metadata h) as [m h1]. cbn [snd] in *.
  destruct (allowed_transitions _ _) as [allowed |];
    [| cbn [fst snd succeeds]; by intros _].
  destruct (negb _); cbn [fst snd succeeds]; [by intros _ |].
  rewrite setState_effect. cbn [default_record].
  case_bool_decide; cbn [fst snd succeeds]; [discriminate |]. by intros _.
Qed.

Lemma failed_call_changes_nothing_witness :
  (setState "BOGUS" None "s1" 1 world_click.1 world_click.2).1.2 = world_click.1 /\
  objects (transition "VERIFIED" None "s1" 1 world_click.1 world_click.2).2
    = objects world_click.2.
Proof.
  pose proof (failed_call_changes_nothing world_click.1 world_click.2) as [Hset Htr].
  split.
  - apply (Hset "BOGUS"%string None "s1"%string 1). reflexivity.
  - apply (Htr "VERIFIED"%string None "s1"%string 1). reflexivity.
Defined.

End call_properties.

Section change_properties.
Import StateMachine.

(** X15: in a state that the constructor and the methods produce, a
    setState with a configured name returns the new current State object
    itself, carrying the name, the fresh id, the time and the data map
    given (a new empty map when none is given), and appends to the
    history one new State object with the same fields.  The history
    entry is another object than the one returned, so writing to the
    returned State changes the current state and not the history. *)
Theorem setState_postcondition
    (config : IStateConfig.t) (fresh_id0 : string) (now0 : Z) (h0 : Heap) (ops : list Op)
    (sname : string) (sdata : option loc) (fresh_id : string) (now : Z) :
  let w := run ops (constructor config fresh_id0 now0 h0) in
  let r := setState sname sdata fresh_id now w.1 w.2 in
  sname ∈ IStateConfig.states config ->
  exists newState entry d,
    r.1.1 = Ok newState /\
    current r.1.2 = newState /\
    object_at r.2 newState =
      {| id := fresh_id; name := sname; timestamp := now; data := d |} /\
    match sdata with
    | Some given => d = given
    | None => (length (records w.2) <= d)%nat /\ record_at r.2 d = []
    end /\
    array_at r.2 (history r.1.2) = array_at w.2 (history w.1) ++ [entry] /\
    entry <> newState /\
    object_at r.2 entry = object_at r.2 newState /\
    forall s : IState,
      object_at (mutate (WriteObject newState s) r.2) (current r.1.2) = s /\
      history_objects r.1.2 (mutate (WriteObject newState s) r.2) = history_objects r.1.2 r.2.
Proof.
  intros w r Hin.
  assert (Hinv : invariant config w.1 w.2).
  { subst w. pose proof (constructor_invariant config fresh_id0 now0 h0) as H0.
    destruct (constructor config fresh_id0 now0 h0) as [this0 h0'].
    by apply run_invariant. }
  destruct w as [this h]. cbn [fst snd] in *.
  destruct Hinv as [Hs _ _ Hh He _ _].
  subst r. rewrite setState_effect.
  assert (Hd : let '(d, h1) := default_record sdata h in
               match sdata with
               | Some given => d = given
               | None => (length (records h) <= d)%nat /\ record_at h1 d = []
               end).
  { destruct sdata as [given |]; cbn; [done |]. split; [lia |].
    unfold record_at. cbn. by rewrite list_lookup_total_middle. }
  destruct (default_record sdata h) as [d h1].
  rewrite bool_decide_eq_true_2 by (by rewrite Hs).
  cbv zeta. cbn [fst snd current history].
  set (s := {| id := fresh_id; name := sname; timestamp := now; data := d |}).
  destruct (lookup_total_two (objects h) s s) as [Hfst Hsnd].
  exists (length (objects h)), (S (length (objects h))), d.
  split; [done |]. split; [done |].
  unfold object_at, array_at, record_at in *. cbn [objects arrays records].
  split; [done |]. split; [exact Hd |].
  split; [by rewrite list_lookup_total_insert_eq |].
  split; [lia |]. split; [by rewrite Hfst, Hsnd |].
  intros s'. unfold history_objects, object_at, array_at.
  cbn [mutate objects arrays history].
  split.
  - apply list_lookup_total_insert_eq. rewrite length_app. simpl. lia.
  - rewrite list_lookup_total_insert_eq by done.
    apply Forall_fmap_ext, Forall_app. split.
    + eapply Forall_impl; [exact He |]. intros l Hl. cbv beta in *.
      apply list_lookup_total_insert_ne. lia.
    + constructor; [| constructor]. apply list_lookup_total_insert_ne. lia.
Qed.

Lemma setState_postcondition_witness :
  exists newState,
    (setState "PENDING" None "s4" 4
       (run click_cycle world_click).1 (run click_cycle world_click).2).1.1 = Ok newState /\
    name (object_at
            (setState "PENDING" None "s4" 4
               (run click_cycle world_click).1 (run click_cycle world_click).2).2
            newState) = "PENDING"%string.
Proof.
  destruct (setState_postcondition config_click "s0" 0 empty_heap click_cycle
              "PENDING" None "s4" 4)
    as (newState & entry & d & Hret & _ & Hobj & _).
  - apply list_elem_of_further, list_elem_of_here.
  - exists newState. split; [exact Hret |]. fold world_click in Hobj. by rewrite Hobj.
Defined.

End change_properties.

Section frame_properties.
Import StateMachine.

(** No method changes a State object or a data map that exists; the one
    array a method changes is the history array of the machine, and a
    new history array is a new object. *)
Lemma step_frame (op : Op) (this : t) (h : Heap) :
  let w' := (step op (this, h)).2 in
  (forall l, (l < length (objects h))%nat -> object_at w'.2 l = object_at h l) /\
  (forall l, (l < length (records h))%nat -> record_at w'.2 l = record_at h l) /\
  (forall a, (a < length (arrays h))%nat -> a <> history this ->
             array_at w'.2 a = array_at h a) /\
  (length (objects h) <= length (objects w'.2))%nat /\
  (length (arrays h) <= length (arrays w'.2))%nat /\
  (history w'.1 = history this \/ (length (arrays h) <= history w'.1)%nat).
Proof.
  assert (Hext : forall h', extends h h' ->
    (forall l, (l < length (objects h))%nat -> object_at h' l = object_at h l) /\
    (forall l, (l < length (records h))%nat -> record_at h' l = record_at h l) /\
    (forall a, (a < length (arrays h))%nat -> a <> history this ->
               array_at h' a = array_at h a) /\
    (length (objects h) <= length (objects h'))%nat /\
    (length (arrays h) <= length (arrays h'))%nat /\
    (history this = history this \/ (length (arrays h) <= history this)%nat)).
  { intros h' H'. destruct (extends_lookup h h' H') as (Ho & Hr & Ha & Hlo & _ & Hla).
    split; [done |]. split; [done |]. split; [by intros a Hl _; apply Ha |].
    split; [done |]. split; [done | by left]. }
  assert (Hset : forall sname sdata fresh_id now h1, extends h h1 ->
    let r := setState sname (Some sdata) fresh_id now this h1 in
    (forall l, (l < length (objects h))%nat -> object_at r.2 l = object_at h l) /\
    (forall l, (l < length (records h))%nat -> record_at r.2 l = record_at h l) /\
    (forall a, (a < length (arrays h))%nat -> a <> history this ->
               array_at r.2 a = array_at h a) /\
    (length (objects h) <= length (objects r.2))%nat /\
    (length (arrays h) <= length (arrays r.2))%nat /\
    (history r.1.2 = history this \/ (length (arrays h) <= history r.1.2)%nat)).
  { intros sname sdata fresh_id now h1 H1. cbv zeta. rewrite setState_effect.
    cbn [default_record].
    destruct (extends_lookup h h1 H1) as (Ho & Hr & Ha & Hlo & _ & Hla).
    case_bool_decide; cbv zeta; cbn [fst snd history]; [| by apply Hext].
    unfold object_at, record_at, array_at in *. cbn [objects records arrays].
    split; [| split; [done | split; [| split; [| split; [| by left]]]]].
    - intros l Hl. assert (l < length (objects h1))%nat by lia.
      rewrite lookup_total_app_l by done. by apply Ho.
    - intros a Hl Hne. rewrite list_lookup_total_insert_ne by done. by apply Ha.
    - rewrite length_app. lia.
    - by rewrite length_insert. }
  destruct op as [sname sdata fid now | to md fid now | fid now | |]; cbv zeta; cbn [step].
  - pose proof (default_record_extends sdata h) as H1.
    pose proof (Hset sname (default_record sdata h).1 fid now _ H1) as H. cbv zeta in H.
    assert (setState sname sdata fid now this h
            = setState sname (Some (default_record sdata h).1) fid now this
                (default_record sdata h).2) as Heq.
    { unfold setState. cbn [default_record]. by destruct (default_record sdata h). }
    rewrite Heq.
    by destruct (setState sname (Some (default_record sdata h).1) fid now this
                   (default_record sdata h).2) as [[r this'] h'].
  - unfold transition.
    pose proof (default_record_extends md h) as H1.
    destruct (default_record md h) as [m h1]. cbn [snd] in H1.
    destruct (allowed_transitions _ _) as [allowed |]; [| cbn [fst snd]; by apply Hext].
    destruct (negb _); cbn [fst snd]; [by apply Hext |].
    pose proof (Hset to m fid now h1 H1) as H. cbv zeta in H.
    by destruct (setState to (Some m) fid now this h1) as [[[r | e] this'] h'].
  - destruct (array_at h (history this)) as [| first rest] eqn:Harr.
    + unfold reset. rewrite Harr. cbn. by apply Hext, extends_refl.
    + rewrite (reset_effect fid now this h first rest Harr). cbv zeta. cbn [fst snd history].
      unfold object_at, record_at, array_at. cbn [objects records arrays].
      split; [by intros l Hl; rewrite lookup_total_app_l |]. split; [done |].
      split; [by intros a Hl _; rewrite lookup_total_app_l |].
      rewrite !length_app. split; [lia |]. split; [lia | by right].
  - cbn [fst snd]. by apply Hext, getState_extends.
  - cbn [fst snd]. by apply Hext, getHistory_extends.
Qed.

(** X16: what getState and getHistory hand out keeps showing the state
    at the time of the call: whatever calls follow (setState, transition,
    reset included), the State object returned by getState still has the
    fields of the then current state, and the array returned by
    getHistory still holds the then history entries. *)
Theorem returned_copies_are_stable
    (config : IStateConfig.t) (fresh_id0 : string) (now0 : Z) (h0 : Heap)
    (before later : list Op) :
  let w := run before (constructor config fresh_id0 now0 h0) in
  let state := (getState w.1 w.2).1 in
  let h1 := (getState w.1 w.2).2 in
  let entries := (getHistory w.1 h1).1 in
  let h2 := (getHistory w.1 h1).2 in
  let w' := run later (w.1, h2) in
  object_at w'.2 state = object_at w.2 (current w.1) /\
  array_at w'.2 entries = array_at w.2 (history w.1).
Proof.
  intros w state h1 entries h2 w'.
  assert (Hinv : invariant config w.1 w.2).
  { subst w. pose proof (constructor_invariant config fresh_id0 now0 h0) as H0.
    destruct (constructor config fresh_id0 now0 h0) as [this0 h0'].
    by apply run_invariant. }
  destruct w as [this h]. cbn [fst snd] in *.
  destruct Hinv as [_ _ _ Hh _ _ _].
  assert (Hstart : (state < length (objects h2))%nat /\ (entries < length (arrays h2))%nat /\
                   history this <> entries /\
                   object_at h2 state = object_at h (current this) /\
                   array_at h2 entries = array_at h (history this)).
  { subst state entries h2 h1. unfold getState, getHistory, object_at, array_at.
    cbn [alloc_object alloc_array fst snd objects arrays].
    rewrite !length_app. simpl.
    split; [lia |]. split; [lia |]. split; [lia |].
    split; [by apply list_lookup_total_middle |].
    by apply list_lookup_total_middle. }
  destruct Hstart as (Hs & He & Hne & <- & <-).
  subst w'. clearbody state entries h2. clear h1 Hh.
  revert this h2 Hs He Hne. induction later as [| op later IH]; intros this h2 Hs He Hne; [done |].
  unfold run. cbn [foldl]. fold (run later (step op (this, h2)).2).
  pose proof (step_frame op this h2) as (Ho & _ & Ha & Hlo & Hla & Hhist). cbv zeta in *.
  destruct (step op (this, h2)) as [ok [this' h']]. cbn [fst snd] in *.
  rewrite <- (Ho state Hs), <- (Ha entries He (not_eq_sym Hne)).
  apply IH; [lia | lia |].
  destruct Hhist as [-> | Hnew]; [done | lia].
Qed.

End frame_properties.

Section append_properties.
Import StateMachine.
Context (config : IStateConfig.t).

Lemma history_objects_extends this h h' :
  invariant config this h -> extends h h' ->
  history_objects this h' = history_objects this h.
Proof.
  intros [_ _ _ Hh He _ _] Hext.
  destruct (extends_lookup h h' Hext) as (Ho & _ & Ha & _).
  unfold history_objects. rewrite (Ha _ Hh).
  apply Forall_fmap_ext. eapply Forall_impl; [exact He |]. intros l Hl. by apply Ho.
Qed.

Lemma history_objects_setState sname sdata fresh_id now this h :
  invariant config this h ->
  let r := setState sname sdata fresh_id now this h in
  exists added,
    history_objects r.1.2 r.2 = history_objects this h ++ added /\
    length added = (if succeeds r.1.1 then 1 else 0)%nat /\
    Forall (fun s => name s = sname /\ sname ∈ IStateConfig.states config) added.
Proof.
  intros Hinv. cbv zeta. rewrite setState_effect.
  pose proof (default_record_extends sdata h) as Hext.
  destruct (default_record sdata h) as [d h1]. cbn [snd] in Hext.
  case_bool_decide as Hin; cbv zeta; cbn [fst snd succeeds].
  - destruct Hinv as [Hs _ _ Hh He _ _].
    set (s := {| id := fresh_id; name := sname; timestamp := now; data := d |}).
    exists [s]. split; [| split; [done |]].
    + unfold history_objects, array_at, object_at. cbn [history arrays objects].
      rewrite list_lookup_total_insert_eq by done. rewrite fmap_app. f_equal.
      * apply Forall_fmap_ext. eapply Forall_impl; [exact He |]. intros l Hl. cbv beta in *.
        by rewrite lookup_total_app_l.
      * cbn. f_equal. apply (lookup_total_two (objects h) s s).
    + constructor; [| constructor]. split; [done | by rewrite <- Hs].
  - exists []. rewrite app_nil_r. split; [by apply history_objects_extends | done].
Qed.

Lemma history_objects_step op this h :
  invariant config this h ->
  is_reset op = false ->
  let r := step op (this, h) in
  exists added,
    history_objects r.2.1 r.2.2 = history_objects this h ++ added /\
    length added = (if is_change op && r.1 then 1 else 0)%nat /\
    Forall (fun s => name s ∈ IStateConfig.states config) added.
Proof.
  intros Hinv Hop.
  assert (Hnone : forall h', extends h h' ->
    exists added : list IState,
      history_objects this h' = history_objects this h ++ added /\
      length added = 0%nat /\
      Forall (fun s => name s ∈ IStateConfig.states config) added).
  { intros h' Hext. exists []. rewrite app_nil_r.
    split; [by apply history_objects_extends | done]. }
  destruct op as [sname sdata fid now | to md fid now | fid now | |];
    try discriminate; cbv zeta; cbn [step is_change andb].
  - pose proof (history_objects_setState sname sdata fid now this h Hinv) as H.
    cbv zeta in H. destruct (setState sname sdata fid now this h) as [[r this'] h'].
    destruct H as (added & Heq & Hlen & Hnames). exists added.
    split; [done |]. split; [done |].
    eapply Forall_impl; [exact Hnames |]. by intros s [-> ?].
  - unfold transition.
    pose proof (default_record_extends md h) as Hext.
    destruct (default_record md h) as [m h1]. cbn [snd] in Hext.
    pose proof (invariant_extends config this h h1 Hext Hinv) as Hinv1.
    destruct (allowed_transitions _ _) as [allowed |];
      [| cbn [fst snd succeeds]; by apply Hnone].
    destruct (negb _); cbn [fst snd succeeds]; [by apply Hnone |].
    pose proof (history_objects_setState to (Some m) fid now this h1 Hinv1) as H.
    cbv zeta in H. rewrite (history_objects_extends this h h1 Hinv Hext) in H.
    destruct (setState to (Some m) fid now this h1) as [[[r | e] this'] h'];
      destruct H as (added & Heq & Hlen & Hnames); exists added;
      (split; [done |]; split; [done |];
       eapply Forall_impl; [exact Hnames |]; by intros s [-> ?]).
  - cbn [fst snd]. by apply Hnone, getState_extends.
  - cbn [fst snd]. by apply Hnone, getHistory_extends.
Qed.

(** X17: between two resets the history only grows at its end: the
    entries present at some point remain, unchanged and in place, the
    first entries of the history after any further setState, transition,
    getState and getHistory calls; the entries added are as many as the
    calls that succeeded, and each carries a configured state name. *)
Theorem history_is_append_only
    (fresh_id0 : string) (now0 : Z) (h0 : Heap) (before later : list Op) :
  forallb (fun op => negb (is_reset op)) later = true ->
  let w := run before (constructor config fresh_id0 now0 h0) in
  let w' := run later w in
  exists added,
    history_objects w'.1 w'.2 = history_objects w.1 w.2 ++ added /\
    length added = successful_changes later w /\
    Forall (fun s => name s ∈ IStateConfig.states config) added.
Proof.
  intros Hlater w w'.
  assert (Hinv : invariant config w.1 w.2).
  { subst w. pose proof (constructor_invariant config fresh_id0 now0 h0) as H0.
    destruct (constructor config fresh_id0 now0 h0) as [this0 h0'].
    by apply run_invariant. }
  subst w'. destruct w as [this h]. cbn [fst snd] in Hinv. clear before.
  revert this h Hinv. induction later as [| op later IH]; intros this h Hinv.
  - exists []. by rewrite app_nil_r.
  - cbn in Hlater. apply andb_true_iff in Hlater as [Hop Hlater].
    apply negb_true_iff in Hop.
    pose proof (history_objects_step op this h Hinv Hop) as Hstep. cbv zeta in Hstep.
    pose proof (step_invariant config op this h Hinv) as Hinv'.
    unfold run. cbn [foldl successful_changes].
    fold (run later (step op (this, h)).2).
    destruct (step op (this, h)) as [ok [this' h']]. cbn [fst snd] in *.
    destruct Hstep as (added1 & Heq1 & Hlen1 & Hn1).
    destruct (IH Hlater this' h' Hinv') as (added2 & Heq2 & Hlen2 & Hn2).
    exists (added1 ++ added2). rewrite Heq2, Heq1, <- app_assoc. split; [done |].
    split; [rewrite length_app; lia | by apply Forall_app].
Qed.

(** X18: at any time, every entry of the history carries the configured
    initial state name or a configured state name. *)
Theorem history_names_configured
    (fresh_id0 : string) (now0 : Z) (h0 : Heap) (ops : list Op) :
  let w := run ops (constructor config fresh_id0 now0 h0) in
  Forall (fun s => name s = IStateConfig.initialState config \/
                   name s ∈ IStateConfig.states config)
         (history_objects w.1 w.2).
Proof.
  cbv zeta.
  pose proof (constructor_invariant config fresh_id0 now0 h0) as Hinv0.
  assert (Hstart : Forall (fun s => name s = IStateConfig.initialState config \/
                                    name s ∈ IStateConfig.states config)
                          (history_objects (constructor config fresh_id0 now0 h0).1
                                           (constructor config fresh_id0 now0 h0).2)).
  { rewrite constructor_effect. cbv zeta. cbn [fst snd].
    unfold history_objects, array_at, object_at. cbn [history arrays objects].
    rewrite list_lookup_total_middle by done. cbn.
    rewrite (proj2 (lookup_total_two (objects h0) _ _)).
    constructor; [by left | constructor]. }
  destruct (constructor config fresh_id0 now0 h0) as [this h]. cbn [fst snd] in *.
  revert this h Hinv0 Hstart.
  induction ops as [| op ops IH]; intros this h Hinv Hnames; [done |].
  unfold run. cbn [foldl]. fold (run ops (step op (this, h)).2).
  pose proof (step_invariant config op this h Hinv) as Hinv'.
  assert (Hnames' : Forall (fun s => name s = IStateConfig.initialState config \/
                                     name s ∈ IStateConfig.states config)
                           (history_objects (step op (this, h)).2.1 (step op (this, h)).2.2)).
  { destruct (is_reset op) eqn:Hop.
    - destruct op; try discriminate. cbn [step snd].
      destruct Hinv as [_ _ _ _ _ (first & rest & Harr & Hname & _) _].
      rewrite (reset_effect _ _ this h first rest Harr). cbv zeta. cbn [fst snd].
      unfold history_objects, array_at, object_at. cbn [history arrays objects].
      rewrite list_lookup_total_middle by done. cbn.
      rewrite (proj2 (lookup_total_two (objects h) _ _)).
      constructor; [by left | constructor].
    - destruct (history_objects_step op this h Hinv Hop) as (added & -> & _ & Hadded).
      apply Forall_app. split; [done |].
      eapply Forall_impl; [exact Hadded |]. intros s Hs. by right. }
  destruct (step op (this, h)) as [ok [this' h']]. by apply IH.
Qed.

End append_properties.

(** The click cycle adds two entries, PENDING and VERIFIED, after IDLE. *)
Lemma history_is_append_only_witness :
  exists added,
    StateMachine.history_objects (StateMachine.run click_cycle world_click).1
                                 (StateMachine.run click_cycle world_click).2
    = StateMachine.history_objects world_click.1 world_click.2 ++ added /\
    length added = 2%nat.
Proof.
  destruct (history_is_append_only config_click "s0" 0 StateMachine.empty_heap [] click_cycle
              eq_refl) as (added & Heq & Hlen & _).
  exists added. split; [exact Heq | exact Hlen].
Defined.

(** ** The hunters: registering a pattern, and the two phases *)

Section registration_properties.
Context {engine : RegExpEngine}.

Lemma DeceptionHunter_analyze_loop_app ps qs page_content matched :
  DeceptionHunter.analyze_loop (ps ++ qs) page_content matched =
    match DeceptionHunter.analyze_loop ps page_content matched with
    | Ok found => DeceptionHunter.analyze_loop qs page_content found
    | Throw e => Throw e
    end.
Proof.
  revert matched. induction ps as [| p ps IH]; intros matched; simpl; [done |].
  destruct (RegexLiteral.match_literal false "gimsuy" (regex p)) as [[source flags] |];
    [| apply IH].
  destruct (RegExp_new source flags) as [re |]; [| done].
  destruct (RegExp_test re page_content); apply IH.
Qed.

Context {rt : MLRuntime}.

(** X19: a pattern added with addPattern is scanned last.  For
    MLDeceptionHunter the result is the former result, followed by the
    new pattern when its rule matches; for DeceptionHunter likewise, save
    that an exception of the former scan stays and a new rule that does
    not compile raises. *)
Theorem addPattern_scanned_last (pattern : IDeceptionHunterPattern) (page_content : string)
    (dh : DeceptionHunter.t) (ml : MLDeceptionHunter.t) :
  MLDeceptionHunter.analyze (MLDeceptionHunter.addPattern pattern ml) page_content =
    MLDeceptionHunter.analyze ml page_content
    ++ (if MLDeceptionHunter.rule_matches pattern page_content then [pattern] else []) /\
  DeceptionHunter.analyze (DeceptionHunter.addPattern pattern dh) page_content =
    match DeceptionHunter.analyze dh page_content with
    | Throw e => Throw e
    | Ok found =>
        if DeceptionHunter.rule_throws pattern then Throw SyntaxError
        else Ok (found ++ (if DeceptionHunter.rule_matches pattern page_content
                           then [pattern] else []))
    end.
Proof.
  split.
  - unfold MLDeceptionHunter.analyze, MLDeceptionHunter.addPattern.
    cbn [MLDeceptionHunter.baseHunterPatterns].
    rewrite !MLDeceptionHunter_analyze_loop_filter, filter_app. cbn [app]. f_equal.
    destruct (MLDeceptionHunter.rule_matches pattern page_content) eqn:Hp.
    + by rewrite filter_cons_True.
    + rewrite filter_cons_False; [done | by rewrite Hp].
  - unfold DeceptionHunter.analyze, DeceptionHunter.addPattern.
    cbn [DeceptionHunter.patterns].
    rewrite DeceptionHunter_analyze_loop_app.
    destruct (DeceptionHunter.analyze_loop (DeceptionHunter.patterns dh) page_content [])
      as [found | e]; [| done].
    unfold DeceptionHunter.rule_throws, DeceptionHunter.rule_matches. simpl.
    destruct (RegexLiteral.match_literal false "gimsuy" (regex pattern))
      as [[source flags] |]; [| by rewrite app_nil_r].
    destruct (RegExp_new source flags) as [re |]; [| done].
    destruct (RegExp_test re page_content); [done | by rewrite app_nil_r].
Qed.

(** X20: the two phases of MLDeceptionHunter.  In every hunter that the
    constructor, addPattern, initializeML and dispose produce, mlEnabled
    tells whether the networks are live: when it is set, the three models
    are present with their networks; when it is not, every model is
    absent or disposed.  A second initializeML keeps the networks of the
    first. *)
Theorem hunter_phases (this : MLDeceptionHunter.t) :
  MLDeceptionHunter.reachable this ->
  (MLDeceptionHunter.mlEnabled this = true ->
     (exists cnn, MLDeceptionHunter.cnnModel this = Some {| CNNModel.model := Some cnn |}) /\
     (exists lstm, MLDeceptionHunter.lstmModel this = Some {| LSTMModel.model := Some lstm |}) /\
     (exists meta, MLDeceptionHunter.ensemble this =
                     Some {| EnsembleModel.metaLearner := Some meta;
                             EnsembleModel.isInitialized := true |}) /\
     forall cnn lstm meta, MLDeceptionHunter.initializeML cnn lstm meta this = this) /\
  (MLDeceptionHunter.mlEnabled this = false ->
     (forall m, MLDeceptionHunter.cnnModel this = Some m -> CNNModel.model m = None) /\
     (forall m, MLDeceptionHunter.lstmModel this = Some m -> LSTMModel.model m = None) /\
     (forall m, MLDeceptionHunter.ensemble this = Some m -> EnsembleModel.metaLearner m = None)).
Proof.
  intros Hreach. split.
  - intros Hon.
    destruct (reachable_ready this Hreach Hon) as (cnn & lstm & meta & Hc & Hl & He).
    split; [by exists cnn |]. split; [by exists lstm |]. split; [by exists meta |].
    intros cnn' lstm' meta'. unfold MLDeceptionHunter.initializeML. by rewrite Hon.
  - induction Hreach as [| pattern this _ IH | cnn lstm meta this _ IH | this _ IH].
    + intros _. cbn. by repeat split.
    + exact IH.
    + unfold MLDeceptionHunter.initializeML.
      destruct (MLDeceptionHunter.mlEnabled this) eqn:E; [by rewrite E | discriminate].
    + intros _. cbn.
      split; [| split]; intros m Hm.
      * destruct (MLDeceptionHunter.cnnModel this); [| discriminate].
        by injection Hm as <-.
      * destruct (MLDeceptionHunter.lstmModel this); [| discriminate].
        by injection Hm as <-.
      * destruct (MLDeceptionHunter.ensemble this); [| discriminate].
        by injection Hm as <-.
Qed.

End registration_properties.

Lemma hunter_phases_witness :
  exists m, @MLDeceptionHunter.cnnModel ConstantRuntime.runtime
              (MLDeceptionHunter.dispose ready_hunter) = Some m /\
            CNNModel.model m = None.
Proof.
  eexists. split; [reflexivity |].
  refine (proj1 (proj2 (@hunter_phases ConstantRuntime.runtime
                          (MLDeceptionHunter.dispose ready_hunter) _) eq_refl) _ eq_refl).
  apply MLDeceptionHunter.reachable_dispose, MLDeceptionHunter.reachable_initializeML,
    MLDeceptionHunter.reachable_new.
Defined.
